(** * ZSTL: the polymorphic memory resources and their consumer, zstl::vector

    A shallow embedding of [include/ZSTL/memory_resource.hpp] and of the
    growth path of [include/ZSTL/vector.hpp].

    - [std::size_t] is a 64-bit unsigned integer: a [Z] in [0, 2^64), with the
      wrap-around of [+] and [*] written out ([size_add], [size_mul]).
    - A pointer is its address, a [Z]; [nullptr] is 0.
    - Objects of the class hierarchy rooted at [memory_resource] live in a
      store indexed by their address, so that two pointers to one resource
      alias and [this == &other] is a comparison of addresses.
    - A member function is a state transformer over the [world]; it returns
      normally, throws, or has undefined behaviour ([Fault]).
    - A virtual call is resolved by the dynamic type found in the store.  The
      chain of upstream resources is followed with a fuel; [OutOfFuel] is
      kept apart from every outcome of the program. *)

From stdpp Require Import base gmap list.
From Stdlib Require Import ZArith Lia.

Local Open Scope Z_scope.

(** ** Platform constants (LP64) *)

Abbreviation addr := Z.
Definition nullptr : addr := 0.

Definition SIZE_MAX : Z := 2 ^ 64 - 1.
Definition size_add (a b : Z) : Z := (a + b) mod 2 ^ 64.
Definition size_mul (a b : Z) : Z := (a * b) mod 2 ^ 64.
Definition size_sub (a b : Z) : Z := (a - b) mod 2 ^ 64.

(** [alignof(std::max_align_t)], the default [alignment] argument. *)
Definition alignof_max_align_t : Z := 16.
(** The size of an object pointer. *)
Definition sizeof_void_ptr : Z := 8.
(** The size and alignment of [monotonic_buffer_resource::block], a struct
    of two pointers and a [std::size_t]. *)
Definition sizeof_block : Z := 24.
Definition alignof_block : Z := 8.

(** ** Exceptions, calls and events *)

Inductive exn :=
| bad_alloc
| bad_array_new_length
| user_exception (code : Z).

(** What a user-defined override answers. *)
Inductive reply (A : Type) :=
| Returns (a : A)
| Throws (e : exn).
Arguments Returns {A} a.
Arguments Throws {A} e.

(** A call that reached a virtual member of the resource at [this]. *)
Inductive event :=
| EvDoAllocate (this : addr) (bytes alignment : Z)
| EvDoDeallocate (this : addr) (p : addr) (bytes alignment : Z).

Definition event_this (e : event) : addr :=
  match e with
  | EvDoAllocate this _ _ => this
  | EvDoDeallocate this _ _ _ => this
  end.

Definition calls_on (this : addr) (t : list event) : list event :=
  List.filter (fun e => event_this e =? this) t.

(** Calls into the C library. *)
Inductive sys_call :=
| SysAlignedMalloc (size alignment : Z)
| SysMalloc (size : Z)
| SysPosixMemalign (alignment size : Z)
| SysMemalign (alignment size : Z)
| SysAlignedFree (p : addr)
| SysFree (p : addr).

(** The three configurations of [NewDeleteResource]. *)
Inductive build_config :=
| HAVE__ALIGNED_MALLOC
| HAVE_POSIX_MEMALIGN
| HAVE_NEITHER.

(** The C library is outside the repository: what each allocation function
    returns is a function of the calls made so far and of its arguments.
    [c_posix_memalign] gives the return code and the pointer stored. *)
Record platform := {
  build : build_config;
  c_aligned_malloc : list sys_call -> Z -> Z -> addr;
  c_malloc : list sys_call -> Z -> addr;
  c_posix_memalign : list sys_call -> Z -> Z -> Z * addr;
  c_memalign : list sys_call -> Z -> Z -> addr
}.

(** ** The objects *)

(** [monotonic_buffer_resource::block].  The [next] link is the tail of the
    list the block sits in; [b_this] is the address of the header itself. *)
Record block := {
  b_this : addr;
  b_ptr : addr;
  b_size : Z
}.

(** The fields of [monotonic_buffer_resource].  A block is never written
    after [allocate_block] has linked it, so [current] holds the block it
    points to ([None] for [nullptr]). *)
Record monotonic_buffer_resource := {
  constructTID : Z;
  upstream : addr;
  block_size : Z;
  current : option block;
  current_pos : Z;
  block_list : list block
}.

(** The default member initialisers. *)
Definition default_block_size : Z := 256 * 1024.

Definition set_block_list (l : list block) (m : monotonic_buffer_resource) :=
  {| constructTID := constructTID m; upstream := upstream m;
     block_size := block_size m; current := current m;
     current_pos := current_pos m; block_list := l |}.

Definition set_current (c : option block) (m : monotonic_buffer_resource) :=
  {| constructTID := constructTID m; upstream := upstream m;
     block_size := block_size m; current := c;
     current_pos := current_pos m; block_list := block_list m |}.

Definition set_current_pos (p : Z) (m : monotonic_buffer_resource) :=
  {| constructTID := constructTID m; upstream := upstream m;
     block_size := block_size m; current := current m;
     current_pos := p; block_list := block_list m |}.

Definition set_block_size (s : Z) (m : monotonic_buffer_resource) :=
  {| constructTID := constructTID m; upstream := upstream m;
     block_size := s; current := current m;
     current_pos := current_pos m; block_list := block_list m |}.

(** A class derived from [memory_resource] outside the repository: its three
    overrides.  The history handed to an override is the list of earlier
    virtual calls on the same object. *)
Record user_resource := {
  u_do_allocate : list event -> Z -> Z -> reply addr;
  u_do_deallocate : list event -> addr -> Z -> Z -> reply unit;
  u_do_is_equal : addr -> addr -> bool
}.

(** The dynamic type of a resource, with its fields. *)
Inductive object :=
| NewDeleteResource
| Monotonic (m : monotonic_buffer_resource)
| UserResource (u : user_resource).

(** ** The world *)

Record world := {
  objects : gmap Z object;
  libc : platform;
  sys_calls : list sys_call;
  cells : gmap Z Z;
  trace : list event
}.

Definition set_objects (o : gmap Z object) (w : world) : world :=
  {| objects := o; libc := libc w; sys_calls := sys_calls w;
     cells := cells w; trace := trace w |}.

Definition set_cells (c : gmap Z Z) (w : world) : world :=
  {| objects := objects w; libc := libc w; sys_calls := sys_calls w;
     cells := c; trace := trace w |}.

Definition log_event (e : event) (w : world) : world :=
  {| objects := objects w; libc := libc w; sys_calls := sys_calls w;
     cells := cells w; trace := trace w ++ [e] |}.

Definition log_sys (c : sys_call) (w : world) : world :=
  {| objects := objects w; libc := libc w; sys_calls := sys_calls w ++ [c];
     cells := cells w; trace := trace w |}.

(** ** Outcomes and the monad of member functions *)

Inductive outcome (A : Type) :=
| Ret (a : A) (w : world)
| Throw (e : exn) (w : world)
| Fault
| OutOfFuel.
Arguments Ret {A} a w.
Arguments Throw {A} e w.
Arguments Fault {A}.
Arguments OutOfFuel {A}.

Definition M (A : Type) : Type := world -> outcome A.

Definition ret {A} (a : A) : M A := fun w => Ret a w.
Definition throw {A} (e : exn) : M A := fun w => Throw e w.
Definition fault {A} : M A := fun _ => Fault.

Definition bind {A B} (c : M A) (k : A -> M B) : M B :=
  fun w =>
    match c w with
    | Ret a w' => k a w'
    | Throw e w' => Throw e w'
    | Fault => Fault
    | OutOfFuel => OutOfFuel
    end.

Notation "'do' x <- c ; k" := (bind c (fun x => k))
  (at level 10, x name, c at level 100, k at level 200).
Notation "'run' c ; k" := (bind c (fun _ => k))
  (at level 10, c at level 100, k at level 200).

Definition of_reply {A} (r : reply A) : M A :=
  match r with
  | Returns a => ret a
  | Throws e => throw e
  end.

(** ** memory_resource: the non-virtual interface

    [allocate] and [deallocate] are written over the virtual member they
    forward to. *)
Module memory_resource.

Definition allocate (do_allocate : addr -> Z -> Z -> M addr)
    (this : addr) (bytes alignment : Z) : M addr :=
  if bytes =? 0 then ret nullptr
  else do_allocate this bytes alignment.

Definition deallocate (do_deallocate : addr -> addr -> Z -> Z -> M unit)
    (this : addr) (p : addr) (bytes alignment : Z) : M unit :=
  if p =? nullptr then ret tt
  else do_deallocate this p bytes alignment.

End memory_resource.

(** ** NewDeleteResource *)
Module new_delete.

Definition do_allocate (size alignment : Z) : M addr :=
  fun w =>
    let h := sys_calls w in
    match build (libc w) with
    | HAVE__ALIGNED_MALLOC =>
        Ret (c_aligned_malloc (libc w) h size alignment)
            (log_sys (SysAlignedMalloc size alignment) w)
    | HAVE_POSIX_MEMALIGN =>
        if alignment <? sizeof_void_ptr then
          Ret (c_malloc (libc w) h size) (log_sys (SysMalloc size) w)
        else
          let '(rc, ptr) := c_posix_memalign (libc w) h alignment size in
          Ret (if rc =? 0 then ptr else nullptr)
              (log_sys (SysPosixMemalign alignment size) w)
    | HAVE_NEITHER =>
        Ret (c_memalign (libc w) h alignment size)
            (log_sys (SysMemalign alignment size) w)
    end.

Definition do_deallocate (ptr : addr) (bytes alignment : Z) : M unit :=
  fun w =>
    if ptr =? nullptr then Ret tt w
    else
      match build (libc w) with
      | HAVE__ALIGNED_MALLOC => Ret tt (log_sys (SysAlignedFree ptr) w)
      | _ => Ret tt (log_sys (SysFree ptr) w)
      end.

Definition do_is_equal (this other : addr) : bool := this =? other.

End new_delete.

(** ** monotonic_buffer_resource

    The member functions, over the two non-virtual entry points of the
    [memory_resource] that [upstream] points to. *)
Module monotonic.
Section methods.

(** [r->allocate(bytes, alignment)] and [r->deallocate(p, bytes, alignment)]
    for a [memory_resource *r]. *)
Variable allocate : addr -> Z -> Z -> M addr.
Variable deallocate : addr -> addr -> Z -> Z -> M unit.

(** Reading and writing the fields of [*this]. *)
Definition load (this : addr) : M monotonic_buffer_resource :=
  fun w =>
    match objects w !! this with
    | Some (Monotonic m) => Ret m w
    | _ => Fault
    end.

Definition update (this : addr)
    (f : monotonic_buffer_resource -> monotonic_buffer_resource) : M unit :=
  fun w =>
    match objects w !! this with
    | Some (Monotonic m) =>
        Ret tt (set_objects (<[this := Monotonic (f m)]> (objects w)) w)
    | _ => Fault
    end.

(** The header is written through the pointer the upstream returned:
    through a null pointer this is undefined behaviour. *)
Definition allocate_block (this : addr) (size : Z) : M block :=
  do m <- load this;
  do b <- allocate (upstream m) (size_add sizeof_block size) alignof_block;
  if b =? nullptr then fault
  else
    let blk := {| b_this := b; b_ptr := b + sizeof_block; b_size := size |} in
    run update this (fun m => set_block_list (blk :: block_list m) m);
    ret blk.

Definition free_block (this : addr) (b : block) : M unit :=
  do m <- load this;
  deallocate (upstream m) (b_this b) (size_add sizeof_block (b_size b))
    alignof_max_align_t.

(** [while (b) { next = b->next; free_block(b); b = next; }] *)
Fixpoint release_loop (this : addr) (b : list block) : M unit :=
  match b with
  | [] => ret tt
  | blk :: next => run free_block this blk; release_loop this next
  end.

Definition release (this : addr) : M unit :=
  do m <- load this;
  run release_loop this (block_list m);
  run update this (set_block_list []);
  update this (set_current None).

Definition upstream_resource (this : addr) : M addr :=
  do m <- load this; ret (upstream m).

Definition do_deallocate (this : addr) (p : addr) (bytes alignment : Z)
    : M unit :=
  do m <- load this;
  if block_size m <? bytes then
    deallocate (upstream m) p bytes alignof_max_align_t
  else ret tt.

Definition do_is_equal (this other : addr) : bool := this =? other.

(** [~monotonic_buffer_resource() { this->release(); }]: the object is
    gone from the store afterwards. *)
Definition destroy (this : addr) : M unit :=
  run release this;
  fun w => Ret tt (set_objects (delete this (objects w)) w).

(** The next multiple of [alignment] at or after [pos]. *)
Definition round_up (pos alignment : Z) : Z :=
  if pos mod alignment =? 0 then pos
  else pos + (alignment - pos mod alignment).

(** Whether [bytes] at [alignment] fit in the current block from
    [current_pos] on. *)
Definition fits (m : monotonic_buffer_resource) (bytes alignment : Z)
    : bool :=
  match current m with
  | None => false
  | Some b => round_up (current_pos m) alignment + bytes <=? b_size b
  end.

(** Modelled from the spec: [monotonic_buffer_resource::do_allocate] is
    declared in memory_resource.hpp and defined in no file of src/.  After
    section 4.3: a request above the block-size threshold goes to the
    upstream as it is and is not tracked; otherwise, when there is no
    current block or it cannot hold [bytes] after rounding the offset up, a
    new block of [max(bytes, block_size)] is taken (by [allocate_block],
    which is in src/) and becomes the current block, and the block size
    doubles for the next growth; then the offset is rounded up to
    [alignment], the address is the block's base plus that offset, and the
    offset advances past the [bytes]. *)
Definition do_allocate (this : addr) (bytes alignment : Z) : M addr :=
  do m <- load this;
  if block_size m <? bytes then
    allocate (upstream m) bytes alignment
  else
    run (if fits m bytes alignment then ret tt
         else
           do b <- allocate_block this (Z.max bytes (block_size m));
           run update this (set_current (Some b));
           run update this (set_current_pos 0);
           update this (fun m => set_block_size (size_mul 2 (block_size m)) m));
    do m <- load this;
    match current m with
    | None => fault
    | Some b =>
        let rounded := round_up (current_pos m) alignment in
        run update this (set_current_pos (rounded + bytes));
        ret (b_ptr b + rounded)
    end.

End methods.
End monotonic.

(** ** Virtual dispatch

    [do_allocate] and [do_deallocate] select the override by the dynamic type
    of [*this]; a pointer to no live resource faults.  Every dispatched call
    is recorded in [trace]. *)

Fixpoint do_allocate (fuel : nat) (this : addr) (bytes alignment : Z)
    : M addr :=
  match fuel with
  | O => fun _ => OutOfFuel
  | S fuel' => fun w =>
      match objects w !! this with
      | None => Fault
      | Some o =>
          let w1 := log_event (EvDoAllocate this bytes alignment) w in
          match o with
          | NewDeleteResource => new_delete.do_allocate bytes alignment w1
          | Monotonic _ =>
              monotonic.do_allocate
                (memory_resource.allocate (do_allocate fuel'))
                this bytes alignment w1
          | UserResource u =>
              of_reply
                (u_do_allocate u (calls_on this (trace w)) bytes alignment) w1
          end
      end
  end.

Fixpoint do_deallocate (fuel : nat) (this : addr) (p : addr)
    (bytes alignment : Z) : M unit :=
  match fuel with
  | O => fun _ => OutOfFuel
  | S fuel' => fun w =>
      match objects w !! this with
      | None => Fault
      | Some o =>
          let w1 := log_event (EvDoDeallocate this p bytes alignment) w in
          match o with
          | NewDeleteResource => new_delete.do_deallocate p bytes alignment w1
          | Monotonic _ =>
              monotonic.do_deallocate
                (memory_resource.deallocate (do_deallocate fuel'))
                this p bytes alignment w1
          | UserResource u =>
              of_reply
                (u_do_deallocate u (calls_on this (trace w)) p bytes alignment)
                w1
          end
      end
  end.

Definition do_is_equal (w : world) (this other : addr) : option bool :=
  match objects w !! this with
  | None => None
  | Some NewDeleteResource => Some (new_delete.do_is_equal this other)
  | Some (Monotonic _) => Some (monotonic.do_is_equal this other)
  | Some (UserResource u) => Some (u_do_is_equal u this other)
  end.

(** The public members of [memory_resource], on a pointer to a resource. *)
Definition allocate (fuel : nat) : addr -> Z -> Z -> M addr :=
  memory_resource.allocate (do_allocate fuel).

Definition deallocate (fuel : nat) : addr -> addr -> Z -> Z -> M unit :=
  memory_resource.deallocate (do_deallocate fuel).

Definition is_equal (w : world) (this other : addr) : option bool :=
  do_is_equal w this other.

(** [operator==(const memory_resource &a, const memory_resource &b)] *)
Definition memory_resource_eq (w : world) (a b : addr) : option bool :=
  is_equal w a b.

(** The members of [monotonic_buffer_resource] that are not virtual. *)
Definition release (fuel : nat) : addr -> M unit :=
  monotonic.release (deallocate fuel).

Definition allocate_block (fuel : nat) : addr -> Z -> M block :=
  monotonic.allocate_block (allocate fuel).

Definition free_block (fuel : nat) : addr -> block -> M unit :=
  monotonic.free_block (deallocate fuel).

(** [monotonic_buffer_resource(std::size_t initial_size, memory_resource
    *upstream)], constructing at [this]; the constructor that takes the
    upstream alone leaves [block_size] at [default_block_size]. *)
Definition construct_monotonic (this : addr) (tid initial_size : Z)
    (up : addr) (w : world) : world :=
  set_objects
    (<[this := Monotonic {| constructTID := tid; upstream := up;
                            block_size := initial_size; current := None;
                            current_pos := 0; block_list := [] |}]>
       (objects w)) w.

(** ** polymorphic_allocator *)

(** What a template argument contributes: [sizeof] and [alignof]. *)
Record ctype := { sizeof : Z; alignof : Z }.

Record polymorphic_allocator := { memoryResource : addr }.

Module pmr.
Section members.
Variable fuel : nat.

Definition resource (a : polymorphic_allocator) : addr := memoryResource a.

Definition allocate_bytes (a : polymorphic_allocator)
    (nbytes alignment : Z) : M addr :=
  allocate fuel (resource a) nbytes alignment.

Definition deallocate_bytes (a : polymorphic_allocator) (p : addr)
    (nbytes alignment : Z) : M unit :=
  deallocate fuel (resource a) p nbytes alignment.

(** [polymorphic_allocator<Tp>::allocate(n)] and [deallocate(p, n)]. *)
Definition allocate_n (a : polymorphic_allocator) (Tp : ctype) (n : Z)
    : M addr :=
  allocate fuel (resource a) (size_mul n (sizeof Tp)) (alignof Tp).

Definition deallocate_n (a : polymorphic_allocator) (Tp : ctype)
    (p : addr) (n : Z) : M unit :=
  deallocate fuel (resource a) p (size_mul n (sizeof Tp)) (alignof Tp).

Definition allocate_object (a : polymorphic_allocator) (U : ctype) (n : Z)
    : M addr :=
  if SIZE_MAX / sizeof U <? n then throw bad_array_new_length
  else allocate_bytes a (size_mul n (sizeof U)) (alignof U).

Definition deallocate_object (a : polymorphic_allocator) (U : ctype)
    (p : addr) (n : Z) : M unit :=
  deallocate_bytes a p (size_mul n (sizeof U)) (alignof U).

(** Placement construction of a value at [p], and the end of its
    lifetime.  A value is a [Z]; [cells] holds the live ones. *)
Definition construct (p : addr) (v : Z) : M unit :=
  fun w =>
    if p =? nullptr then Fault
    else Ret tt (set_cells (<[p := v]> (cells w)) w).

Definition destroy (p : addr) : M unit :=
  fun w =>
    match cells w !! p with
    | None => Fault
    | Some _ => Ret tt (set_cells (delete p (cells w)) w)
    end.

Definition new_object (a : polymorphic_allocator) (U : ctype) (v : Z)
    : M addr :=
  do p <- allocate_object a U 1;
  run construct p v;
  ret p.

Definition delete_object (a : polymorphic_allocator) (U : ctype)
    (p : addr) : M unit :=
  run destroy p;
  deallocate_object a U p 1.

End members.

(** [operator==] on two allocators compares the two resource pointers. *)
Definition eq (a b : polymorphic_allocator) : bool :=
  resource a =? resource b.

End pmr.

(** ** new_delete_resource and the default allocator

    [static NewDeleteResource *ndr] is threaded beside the world.  The
    address [new NewDeleteResource] returns is the caller's [fresh]: operator
    new is outside the repository. *)
Definition new_delete_resource (fresh : addr) (ndr : addr) (w : world)
    : addr * (addr * world) :=
  if ndr =? nullptr then
    (fresh,
     (fresh, set_objects (<[fresh := NewDeleteResource]> (objects w)) w))
  else (ndr, (ndr, w)).

(** [polymorphic_allocator() noexcept { memoryResource = new_delete_resource(); }] *)
Definition default_allocator (fresh : addr) (ndr : addr) (w : world)
    : polymorphic_allocator * (addr * world) :=
  let '(r, s) := new_delete_resource fresh ndr w in
  ({| memoryResource := r |}, s).

(** ** zstl::vector: the growth path

    [vector<_Tp, pmr::polymorphic_allocator<_Tp>>] for a value type whose
    values are integers and whose move leaves the source as it was (as for
    [int]).  The vector is passed by value through its member functions; the
    elements live in [cells], one per address [ptr + i]. *)

Record vector := {
  alloc : polymorphic_allocator;
  ptr : addr;
  nAlloc : Z;
  nStored : Z
}.

Definition set_nStored (n : Z) (v : vector) : vector :=
  {| alloc := alloc v; ptr := ptr v; nAlloc := nAlloc v; nStored := n |}.

(** What [at] and [operator[]] give: the element, [std::out_of_range], or
    a read of storage that holds no value. *)
Inductive access :=
| Value (x : Z)
| OutOfRange
| Indeterminate.

Module vec.
Section members.
Variable fuel : nat.
Variable Tp : ctype.

(** Pointer arithmetic on a [_Tp *]. *)
Definition at_ (p : addr) (i : Z) : addr := p + i * sizeof Tp.

(** [explicit vector(const allocator_type &alloc)] *)
Definition empty (a : polymorphic_allocator) : vector :=
  {| alloc := a; ptr := nullptr; nAlloc := 0; nStored := 0 |}.

Definition size (v : vector) : Z := nStored v.
Definition capacity (v : vector) : Z := nAlloc v.

(** Reading the value at [p]; there is none in raw storage. *)
Definition read (p : addr) : M Z :=
  fun w =>
    match cells w !! p with
    | Some x => Ret x w
    | None => Fault
    end.

(** [for (i = 0; i < nStored; ++i) { construct(ra + i, move(begin()[i]));
    destroy(begin() + i); }], from index [i] on, for [n] more elements. *)
Fixpoint move_loop (v : vector) (ra : addr) (i : Z) (n : nat) : M unit :=
  match n with
  | O => ret tt
  | S n' =>
      do x <- read (at_ (ptr v) i);
      run pmr.construct (at_ ra i) x;
      run pmr.destroy (at_ (ptr v) i);
      move_loop v ra (i + 1) n'
  end.

Definition reserve (v : vector) (n : Z) : M vector :=
  if n <=? nAlloc v then ret v
  else
    do ra <- pmr.allocate_object fuel (alloc v) Tp n;
    run move_loop v ra 0 (Z.to_nat (nStored v));
    run pmr.deallocate_object fuel (alloc v) Tp (ptr v) (nAlloc v);
    ret {| alloc := alloc v; ptr := ra; nAlloc := n; nStored := nStored v |}.

Definition push_back (v : vector) (value : Z) : M vector :=
  do v <- (if nAlloc v =? nStored v then
             reserve v (if nAlloc v =? 0 then 4 else size_mul 2 (nAlloc v))
           else ret v);
  run pmr.construct (at_ (ptr v) (nStored v)) value;
  ret (set_nStored (size_add (nStored v) 1) v).


(** The element sequence, read through [operator[]] for [0 <= i < size()]. *)
Definition elements (v : vector) (w : world) : list (option Z) :=
  List.map (fun i => cells w !! at_ (ptr v) (Z.of_nat i))
    (seq 0 (Z.to_nat (nStored v))).

(** [max_size()] *)
Definition max_size : Z := SIZE_MAX / sizeof Tp.

(** [operator[]]: no check. *)
Definition subscript (v : vector) (index : Z) (w : world) : access :=
  match cells w !! at_ (ptr v) index with
  | Some x => Value x
  | None => Indeterminate
  end.

(** [at(index)]; [at] is a keyword here. *)
Definition at_index (v : vector) (index : Z) (w : world) : access :=
  if nStored v <=? index then OutOfRange
  else subscript v index w.

Definition front (v : vector) (w : world) : access := subscript v 0 w.

Definition back (v : vector) (w : world) : access :=
  subscript v (size_sub (nStored v) 1) w.

(** [for (i = first; i < last; ++i) destroy(ptr + i)], for [n] elements from
    index [i] on. *)
Fixpoint destroy_loop (p : addr) (i : Z) (n : nat) : M unit :=
  match n with
  | O => ret tt
  | S n' => run pmr.destroy (at_ p i); destroy_loop p (i + 1) n'
  end.

Definition clear (v : vector) : M vector :=
  run destroy_loop (ptr v) 0 (Z.to_nat (nStored v));
  ret (set_nStored 0 v).


Definition pop_back (v : vector) : M vector :=
  run pmr.destroy (at_ (ptr v) (nStored v - 1));
  ret (set_nStored (size_sub (nStored v) 1) v).

(** [for (i = first; i < last; ++i) construct(ptr + i, value)] *)
Fixpoint fill_loop (p : addr) (i : Z) (n : nat) (value : Z) : M unit :=
  match n with
  | O => ret tt
  | S n' => run pmr.construct (at_ p i) value; fill_loop p (i + 1) n' value
  end.

(** [vector(size_type count, const_reference value, const allocator_type
    &alloc)] *)
Definition construct_fill (a : polymorphic_allocator) (count value : Z)
    : M vector :=
  do v <- reserve (empty a) count;
  run fill_loop (ptr v) 0 (Z.to_nat count) value;
  ret (set_nStored count v).

(** [for (i = 0; i < n; ++i) construct(dst + i, src[i])] *)
Fixpoint copy_loop (src dst : addr) (i : Z) (n : nat) : M unit :=
  match n with
  | O => ret tt
  | S n' =>
      do x <- read (at_ src i);
      run pmr.construct (at_ dst i) x;
      copy_loop src dst (i + 1) n'
  end.

(** [vector(const vector &other)] *)
Definition copy_construct (other : vector) : M vector :=
  if nStored other =? 0 then
    ret {| alloc := alloc other; ptr := nullptr;
           nAlloc := nAlloc other; nStored := nStored other |}
  else
    do p <- pmr.allocate_object fuel (alloc other) Tp (nStored other);
    run copy_loop (ptr other) p 0 (Z.to_nat (nStored other));
    ret {| alloc := alloc other; ptr := p;
           nAlloc := nAlloc other; nStored := nStored other |}.

(** [vector(const vector &other, const allocator_type &alloc)] *)
Definition copy_construct_with (other : vector) (a : polymorphic_allocator)
    : M vector :=
  do v <- reserve (empty a) (size other);
  run copy_loop (ptr other) (ptr v) 0 (Z.to_nat (size other));
  ret (set_nStored (size other) v).

(** [vector(vector &&other) noexcept]: the new vector and what is left of
    [other]. *)
Definition move_construct (other : vector) : vector * vector :=
  ({| alloc := alloc other; ptr := ptr other;
      nAlloc := nAlloc other; nStored := nStored other |},
   {| alloc := alloc other; ptr := nullptr; nAlloc := 0; nStored := 0 |}).

(** [for (i = 0; i < count; ++i) push_back(value)] *)
Fixpoint push_back_n (v : vector) (value : Z) (n : nat) : M vector :=
  match n with
  | O => ret v
  | S n' => do v <- push_back v value; push_back_n v value n'
  end.

(** [assign(size_type count, const value_type &value)] *)
Definition assign (v : vector) (count value : Z) : M vector :=
  do v <- clear v;
  do v <- reserve v count;
  push_back_n v value (Z.to_nat count).

(** [resize(size_type count)]; [construct(ptr + i)] value-initialises. *)
Definition resize (v : vector) (count : Z) : M vector :=
  if count <? nStored v then
    run destroy_loop (ptr v) count (Z.to_nat (nStored v - count));
    do v <- (if count =? 0 then
               run pmr.deallocate_object fuel (alloc v) Tp (ptr v) (nAlloc v);
               ret {| alloc := alloc v; ptr := nullptr;
                      nAlloc := 0; nStored := nStored v |}
             else ret v);
    ret (set_nStored count v)
  else if nStored v <? count then
    do v <- reserve v count;
    run fill_loop (ptr v) (nStored v) (Z.to_nat (count - nStored v)) 0;
    ret (set_nStored count v)
  else ret (set_nStored count v).

(** [for (i = nStored; i != count; ++i) construct(ptr + nStored, value)]:
    the same address every time round. *)
Fixpoint construct_again (p : addr) (value : Z) (n : nat) : M unit :=
  match n with
  | O => ret tt
  | S n' => run pmr.construct p value; construct_again p value n'
  end.

(** [resize(size_type count, const_reference value)] *)
Definition resize_value (v : vector) (count value : Z) : M vector :=
  if count <? nStored v then
    run destroy_loop (ptr v) count (Z.to_nat (nStored v - count));
    ret (set_nStored count (set_nStored count v))
  else if nStored v <? count then
    do v <- reserve v count;
    run construct_again (at_ (ptr v) (nStored v)) value
          (Z.to_nat (count - nStored v));
    ret (set_nStored count v)
  else ret (set_nStored count v).

End members.
End vec.

(** * Specification vocabulary *)

(** ** Upstream chains *)

(** A user-defined [do_deallocate] that returns on every call. *)
Definition quiet (u : user_resource) : Prop :=
  forall h p bytes alignment, u_do_deallocate u h p bytes alignment = Returns tt.

(** [grounded o d r]: following [upstream] from [r] for exactly [d] steps
    ends in a resource that is not a [monotonic_buffer_resource], and whose
    [do_deallocate], when user-defined, returns. *)
Fixpoint grounded (o : gmap Z object) (d : nat) (r : addr) {struct d} : Prop :=
  match o !! r with
  | Some NewDeleteResource => d = O
  | Some (UserResource u) => d = O /\ quiet u
  | Some (Monotonic m) =>
      match d with
      | O => False
      | S d' => grounded o d' (upstream m)
      end
  | None => False
  end.

(** The events a forwarded deallocation leaves behind: all on resources
    further up the chain than depth [d], all with the default alignment. *)
Definition forwarded (o : gmap Z object) (d : nat) (p : addr) (bytes : Z)
    (e : event) : Prop :=
  exists r d', e = EvDoDeallocate r p bytes alignof_max_align_t
               /\ grounded o d' r /\ (d' < d)%nat.

(** ** The arena *)

(** No block of the list has a null header address: [allocate_block] links
    a block only after writing through its address. *)
Definition blocks_wf (m : monotonic_buffer_resource) : Prop :=
  Forall (fun b => b_this b <> nullptr) (block_list m).

(** What [free_block] asks of the upstream for block [b]. *)
Definition free_event (up : addr) (b : block) : event :=
  EvDoDeallocate up (b_this b) (size_add sizeof_block (b_size b))
    alignof_max_align_t.

(** The arena after [release]. *)
Definition released (m : monotonic_buffer_resource) : monotonic_buffer_resource :=
  set_current None (set_block_list [] m).

(** The two classes of the repository that derive from [memory_resource]. *)
Definition concrete (w : world) (r : addr) : Prop :=
  objects w !! r = Some NewDeleteResource
  \/ exists m, objects w !! r = Some (Monotonic m).

(** ** Alignment *)

Definition power_of_two (a : Z) : Prop := exists k, 0 <= k /\ a = 2 ^ k.

(** What the C library promises about the addresses it returns, for an
    alignment that is a power of two; a null pointer is a multiple of every
    alignment.  [malloc] aligns for every fundamental type. *)
Record aligns (l : platform) : Prop := {
  aligned_malloc_aligned : forall h n a,
    power_of_two a -> c_aligned_malloc l h n a mod a = 0;
  malloc_aligned : forall h n,
    c_malloc l h n mod alignof_max_align_t = 0;
  posix_memalign_aligned : forall h a n,
    power_of_two a -> fst (c_posix_memalign l h a n) = 0 ->
    snd (c_posix_memalign l h a n) mod a = 0;
  memalign_aligned : forall h a n,
    power_of_two a -> c_memalign l h a n mod a = 0
}.

(** The value an outcome returns, if it returns. *)
Definition returned {A} (o : outcome A) : option A :=
  match o with
  | Ret a _ => Some a
  | _ => None
  end.

(** The last step of [do_allocate]: bump the offset inside the current
    block. *)
Definition bump (this : addr) (bytes alignment : Z) : M addr :=
  do m <- monotonic.load this;
  match current m with
  | None => fault
  | Some b =>
      let rounded := monotonic.round_up (current_pos m) alignment in
      run monotonic.update this (set_current_pos (rounded + bytes));
      ret (b_ptr b + rounded)
  end.

(** The growth step of [do_allocate]. *)
Definition grow (up : addr -> Z -> Z -> M addr) (this : addr) (size : Z)
    : M unit :=
  do b <- monotonic.allocate_block up this size;
  run monotonic.update this (set_current (Some b));
  run monotonic.update this (set_current_pos 0);
  monotonic.update this (fun m => set_block_size (size_mul 2 (block_size m)) m).


(** ** The growth path of the vector

    [R live w]: in [w] the resource of the allocator [a] has handed out the
    regions of [live], each an address and a size in bytes, and not taken
    them back. *)
Section growth_model.
Variable Tp : ctype.
Variable a : polymorphic_allocator.
Variable R : list (addr * Z) -> world -> Prop.

(** The values [xs] are stored from [p] on. *)
Definition stores (c : gmap Z Z) (p : addr) (xs : list Z) : Prop :=
  forall (i : nat) x, xs !! i = Some x ->
    c !! vec.at_ Tp p (Z.of_nat i) = Some x.

(** The region a vector holds. *)
Definition region (v : vector) : list (addr * Z) :=
  if nAlloc v =? 0 then [] else [(ptr v, nAlloc v * sizeof Tp)].

(** A vector of [a] that holds the values [xs], beside the regions
    [others] of the same resource. *)
Record vec_inv (others : list (addr * Z)) (v : vector) (xs : list Z)
    (w : world) : Prop := {
  inv_alloc : alloc v = a;
  inv_len : nStored v = Z.of_nat (length xs);
  inv_cap : nStored v <= nAlloc v;
  inv_null : nAlloc v = 0 -> ptr v = nullptr;
  inv_ptr : 0 < nAlloc v -> 0 < ptr v;
  inv_R : R (region v ++ others) w;
  inv_cells : stores (cells w) (ptr v) xs
}.

(** The capacity [push_back] asks for when the vector is full. *)
Definition next_capacity (cap : Z) : Z := if cap =? 0 then 4 else 2 * cap.

(** What [push_back] asks of the resource on a vector [v]. *)
Definition growth_calls (v : vector) : list event :=
  if nAlloc v =? nStored v then
    EvDoAllocate (pmr.resource a) (next_capacity (nAlloc v) * sizeof Tp)
      (alignof Tp)
    :: (if nAlloc v =? 0 then []
        else [EvDoDeallocate (pmr.resource a) (ptr v)
                (nAlloc v * sizeof Tp) (alignof Tp)])
  else [].

(** The capacities asked for while [k] values are appended to a vector of
    capacity [cap] that holds [n] values. *)
Fixpoint growth (cap n : Z) (k : nat) : list Z :=
  match k with
  | O => []
  | S k' =>
      if cap =? n then
        next_capacity cap :: growth (next_capacity cap) (n + 1) k'
      else growth cap (n + 1) k'
  end.

End growth_model.

(** ** Further vocabulary *)

(** The resource of [a] serves regions: it returns regions apart from the
    live ones, at positive addresses, takes a live region back, and neither
    touches the stored values nor depends on them.  Each call is on record
    once. *)
Record serves (fuel : nat) (a : polymorphic_allocator)
    (R : list (addr * Z) -> world -> Prop) : Prop := {
  serves_allocate : forall live w bytes alignment,
    R live w -> 0 < bytes -> 0 < alignment ->
    exists p w',
      allocate fuel (pmr.resource a) bytes alignment w = Ret p w'
      /\ 0 < p /\ cells w' = cells w
      /\ R ((p, bytes) :: live) w'
      /\ Forall (fun r => p + bytes <= fst r \/ fst r + snd r <= p) live
      /\ calls_on (pmr.resource a) (trace w')
         = calls_on (pmr.resource a) (trace w)
           ++ [EvDoAllocate (pmr.resource a) bytes alignment];
  serves_deallocate : forall l1 l2 w p bytes alignment,
    R (l1 ++ (p, bytes) :: l2) w -> p <> nullptr ->
    exists w',
      deallocate fuel (pmr.resource a) p bytes alignment w = Ret tt w'
      /\ cells w' = cells w
      /\ R (l1 ++ l2) w'
      /\ calls_on (pmr.resource a) (trace w')
         = calls_on (pmr.resource a) (trace w)
           ++ [EvDoDeallocate (pmr.resource a) p bytes alignment];
  serves_cells : forall live w c, R live w -> R live (set_cells c w)
}.

(** The calls of the C library that allocate, and the call that frees what
    each of them returned. *)
Definition is_allocation (c : sys_call) : bool :=
  match c with
  | SysAlignedMalloc _ _ | SysMalloc _ | SysPosixMemalign _ _
  | SysMemalign _ _ => true
  | SysAlignedFree _ | SysFree _ => false
  end.

Definition released_by (c : sys_call) (p : addr) : sys_call :=
  match c with
  | SysAlignedMalloc _ _ => SysAlignedFree p
  | _ => SysFree p
  end.

(** The static [ndr] is null or points to the system resource. *)
Definition ndr_ok (ndr : addr) (w : world) : Prop :=
  ndr = nullptr \/ objects w !! ndr = Some NewDeleteResource.

(** * Example worlds *)

(** A C library that hands out consecutive addresses from 4096 on, rounded
    up to the alignment asked for, and never fails. *)
Definition bump_brk (h : list sys_call) : Z :=
  fold_left
    (fun brk c =>
       match c with
       | SysAlignedMalloc n a => monotonic.round_up brk a + n
       | SysMalloc n => monotonic.round_up brk alignof_max_align_t + n
       | SysPosixMemalign a n => monotonic.round_up brk a + n
       | SysMemalign a n => monotonic.round_up brk a + n
       | SysAlignedFree _ => brk
       | SysFree _ => brk
       end)
    h 4096.

Definition bump_libc (cfg : build_config) : platform :=
  {| build := cfg;
     c_aligned_malloc := fun h n a => monotonic.round_up (bump_brk h) a;
     c_malloc := fun h n => monotonic.round_up (bump_brk h) alignof_max_align_t;
     c_posix_memalign := fun h a n => (0, monotonic.round_up (bump_brk h) a);
     c_memalign := fun h a n => monotonic.round_up (bump_brk h) a |}.

(** A C library that is out of memory. *)
Definition oom_libc (cfg : build_config) : platform :=
  {| build := cfg;
     c_aligned_malloc := fun _ _ _ => nullptr;
     c_malloc := fun _ _ => nullptr;
     c_posix_memalign := fun _ _ _ => (12, nullptr);
     c_memalign := fun _ _ _ => nullptr |}.

(** An arena of block size 4096 over [up] that holds [blocks], 640 bytes
    into its current block. *)
Definition arena_4096 (up : addr) (blocks : list block) : monotonic_buffer_resource :=
  {| constructTID := 1; upstream := up; block_size := 4096;
     current := head blocks; current_pos := 640; block_list := blocks |}.

Definition two_blocks : list block :=
  [ {| b_this := 12288; b_ptr := 12312; b_size := 4096 |};
    {| b_this := 4096; b_ptr := 4120; b_size := 4096 |} ].

Definition world_of (l : platform) (o : gmap Z object) : world :=
  {| objects := o; libc := l; sys_calls := []; cells := ∅; trace := [] |}.

(** The system resource at 100 and two arenas over it, at 200 and 300; the
    arena at 200 holds two blocks, the arena at 300 is as
    [monotonic_buffer_resource(4096, upstream)] constructs it. *)
Definition w_arenas : world :=
  construct_monotonic 300 1 4096 100
    (world_of (bump_libc HAVE_NEITHER)
       (<[100 := NewDeleteResource]>
          (<[200 := Monotonic (arena_4096 100 two_blocks)]> ∅))).

(** The system resource at 100 and a newly constructed arena over it at
    300, with a C library that is out of memory. *)
Definition w_oom : world :=
  construct_monotonic 300 1 4096 100
    (world_of (oom_libc HAVE_NEITHER) (<[100 := NewDeleteResource]> ∅)).

(** The system resource alone. *)
Definition w_sys : world :=
  world_of (bump_libc HAVE_NEITHER) (<[100 := NewDeleteResource]> ∅).

Definition sys_alloc : polymorphic_allocator := {| memoryResource := 100 |}.

Definition int_t : ctype := {| sizeof := 4; alignof := 4 |}.

(** The failing request, to the new arena at 300 of
    [w_arenas]: 64 bytes at alignment 16. *)
Definition misaligned_request : outcome addr := allocate 2 300 64 16 w_arenas.



(** The system resource at 100 over the bump C library: every region handed
    out lies below the break. *)
Definition R_sys (live : list (addr * Z)) (w : world) : Prop :=
  objects w !! 100 = Some NewDeleteResource
  /\ libc w = bump_libc HAVE_NEITHER
  /\ 4096 <= bump_brk (sys_calls w)
  /\ Forall (fun r => fst r + snd r <= bump_brk (sys_calls w)) live.

(** The arena at 300 of [w_arenas] and of [w_oom], as constructed, and the
    first block the bump C library gives it. *)
Definition new_arena : monotonic_buffer_resource :=
  {| constructTID := 1; upstream := 100; block_size := 4096;
     current := None; current_pos := 0; block_list := [] |}.

Definition first_block : block :=
  {| b_this := 4096; b_ptr := 4120; b_size := 4096 |}.

(** A vector of three values in storage for four over the system resource,
    as [reserve(4)] and three appends leave it. *)
Definition three_run : outcome vector :=
  (do v <- vec.reserve 1 int_t (vec.empty sys_alloc) 4;
   do v <- vec.push_back 1 int_t v 7;
   do v <- vec.push_back 1 int_t v 8;
   vec.push_back 1 int_t v 9) w_sys.

Definition v_three : vector :=
  {| alloc := sys_alloc; ptr := 4096; nAlloc := 4; nStored := 3 |}.

Definition w_three : world :=
  {| objects := <[100 := NewDeleteResource]> ∅;
     libc := bump_libc HAVE_NEITHER;
     sys_calls := [SysMemalign 4 16];
     cells := <[4104 := 9]> (<[4100 := 8]> (<[4096 := 7]> ∅));
     trace := [EvDoAllocate 100 16 4] |}.

(** * Properties *)

(** ** Upstream chains *)

Lemma grounded_unfold o d r :
  grounded o d r =
  match o !! r with
  | Some NewDeleteResource => d = O
  | Some (UserResource u) => d = O /\ quiet u
  | Some (Monotonic m) =>
      match d with
      | O => False
      | S d' => grounded o d' (upstream m)
      end
  | None => False
  end.
Proof. destruct d; reflexivity. Qed.

Lemma grounded_depth o d : forall d' r,
  grounded o d r -> grounded o d' r -> d = d'.
Proof.
  induction d as [|d IH]; intros d' r; rewrite !grounded_unfold;
    destruct (o !! r) as [[| m | u]|] eqn:E; try tauto.
  - intros _ ->. reflexivity.
  - intros _ [-> _]. reflexivity.
  - discriminate.
  - destruct d' as [|d']; [tauto|]. intros H1 H2. f_equal. eauto.
  - intros [? _]. discriminate.
Qed.

Lemma grounded_live o d r : grounded o d r -> is_Some (o !! r).
Proof. rewrite grounded_unfold. destruct (o !! r); [eauto | tauto]. Qed.

Lemma calls_on_app r t1 t2 : calls_on r (t1 ++ t2) = calls_on r t1 ++ calls_on r t2.
Proof. unfold calls_on. apply List.filter_app. Qed.

Lemma calls_on_cons r e t :
  calls_on r (e :: t) =
  if event_this e =? r then e :: calls_on r t else calls_on r t.
Proof. reflexivity. Qed.

Lemma calls_on_forwarded o d r p bytes evs :
  grounded o d r -> Forall (forwarded o d p bytes) evs -> calls_on r evs = [].
Proof.
  intros Hg. induction 1 as [|e evs (r' & d' & -> & Hg' & Hlt) _ IH]; [reflexivity|].
  cbn. destruct (Z.eqb_spec r' r) as [->|]; [|exact IH].
  pose proof (grounded_depth _ _ _ _ Hg Hg'). lia.
Qed.

Lemma forwarded_mono o d d' p bytes evs :
  (d <= d')%nat -> Forall (forwarded o d p bytes) evs ->
  Forall (forwarded o d' p bytes) evs.
Proof.
  intros Hle H. eapply Forall_impl; [exact H|]. intros e (r & k & -> & Hg & Hlt).
  exists r, k. repeat split; [assumption | lia].
Qed.

(** A deallocation through a grounded chain returns, touches neither the
    resources nor the live values, and records its own call first. *)
Lemma do_deallocate_grounded d : forall fuel r p bytes alignment w,
  grounded (objects w) d r -> (d < fuel)%nat ->
  exists w' evs,
    do_deallocate fuel r p bytes alignment w = Ret tt w'
    /\ objects w' = objects w /\ cells w' = cells w /\ libc w' = libc w
    /\ trace w' = trace w ++ EvDoDeallocate r p bytes alignment :: evs
    /\ Forall (forwarded (objects w) d p bytes) evs.
Proof.
  induction d as [|d IH]; intros fuel r p bytes alignment w Hg Hfuel;
    (destruct fuel as [|fuel]; [lia|]); rewrite grounded_unfold in Hg;
    cbn [do_deallocate]; destruct (objects w !! r) as [[| m | u]|] eqn:E;
    try tauto; try (destruct Hg; discriminate); try discriminate.
  - unfold new_delete.do_deallocate.
    destruct (p =? nullptr); [|cbn; destruct (build (libc w))];
      eexists _, []; repeat split; constructor.
  - destruct Hg as [_ Hq]. rewrite Hq. eexists _, []. repeat split. constructor.
  - unfold monotonic.do_deallocate, bind, monotonic.load. cbn [objects log_event].
    rewrite E. destruct (block_size m <? bytes).
    + unfold memory_resource.deallocate, ret. destruct (p =? nullptr).
      * eexists _, []. repeat split. constructor.
      * destruct (IH fuel (upstream m) p bytes alignof_max_align_t
                    (log_event (EvDoDeallocate r p bytes alignment) w))
          as (w' & evs & Hrun & Ho & Hc & Hl & Ht & Hev); [exact Hg | lia |].
        exists w', (EvDoDeallocate (upstream m) p bytes alignof_max_align_t :: evs).
        rewrite Hrun. repeat split; try assumption.
        -- rewrite Ht. cbn. rewrite <- app_assoc. reflexivity.
        -- constructor.
           ++ exists (upstream m), d. repeat split; [exact Hg | lia].
           ++ eapply forwarded_mono; [|exact Hev]. lia.
    + eexists _, []. repeat split. constructor.
Qed.

Lemma deallocate_grounded d fuel r p bytes alignment w :
  grounded (objects w) d r -> (d < fuel)%nat ->
  exists w' evs,
    deallocate fuel r p bytes alignment w = Ret tt w'
    /\ objects w' = objects w /\ cells w' = cells w /\ libc w' = libc w
    /\ trace w' = trace w ++ evs
    /\ calls_on r evs =
         (if p =? nullptr then [] else [EvDoDeallocate r p bytes alignment])
    /\ (forall x dx, grounded (objects w) dx x -> (d < dx)%nat ->
          calls_on x evs = []).
Proof.
  intros Hg Hfuel. unfold deallocate, memory_resource.deallocate.
  destruct (p =? nullptr).
  - exists w, []. rewrite app_nil_r. repeat split.
  - destruct (do_deallocate_grounded d fuel r p bytes alignment w Hg Hfuel)
      as (w' & evs & Hrun & Ho & Hc & Hl & Ht & Hev).
    exists w', (EvDoDeallocate r p bytes alignment :: evs).
    repeat split; try assumption.
    + cbn. rewrite Z.eqb_refl. f_equal.
      eapply calls_on_forwarded; eassumption.
    + intros x dx Hx Hlt. cbn.
      destruct (Z.eqb_spec r x) as [->|].
      * pose proof (grounded_depth _ _ _ _ Hg Hx). lia.
      * eapply calls_on_forwarded; [exact Hx|].
        eapply forwarded_mono; [|exact Hev]. lia.
Qed.

(** ** The arena's block list *)

Lemma release_loop_grounded d fuel this m : forall blocks w,
  objects w !! this = Some (Monotonic m) ->
  grounded (objects w) d (upstream m) -> (d < fuel)%nat ->
  Forall (fun b => b_this b <> nullptr) blocks ->
  exists w' evs,
    monotonic.release_loop (deallocate fuel) this blocks w = Ret tt w'
    /\ objects w' = objects w /\ cells w' = cells w /\ libc w' = libc w
    /\ trace w' = trace w ++ evs
    /\ calls_on (upstream m) evs = List.map (free_event (upstream m)) blocks.
Proof.
  induction blocks as [|b blocks IH]; intros w Hthis Hg Hfuel Hwf.
  - exists w, []. rewrite app_nil_r. repeat split.
  - inversion Hwf as [|? ? Hb Hwf']; subst.
    cbn [monotonic.release_loop]. unfold bind at 1.
    unfold monotonic.free_block, bind, monotonic.load. rewrite Hthis.
    destruct (deallocate_grounded d fuel (upstream m) (b_this b)
                (size_add sizeof_block (b_size b)) alignof_max_align_t w Hg Hfuel)
      as (w1 & evs1 & Hrun & Ho & Hc & Hl & Ht & Hon & _).
    rewrite Hrun.
    destruct (IH w1) as (w2 & evs2 & Hrun2 & Ho2 & Hc2 & Hl2 & Ht2 & Hon2);
      [rewrite Ho; exact Hthis | rewrite Ho; exact Hg | exact Hfuel | exact Hwf' |].
    exists w2, (evs1 ++ evs2). rewrite Hrun2. repeat split; try congruence.
    + rewrite Ht2, Ht, app_assoc. reflexivity.
    + rewrite calls_on_app, Hon, Hon2.
      destruct (Z.eqb_spec (b_this b) nullptr); [contradiction | reflexivity].
Qed.

Lemma release_grounded d fuel this m w :
  objects w !! this = Some (Monotonic m) ->
  grounded (objects w) d (upstream m) -> (d < fuel)%nat ->
  blocks_wf m ->
  exists w' evs,
    release fuel this w = Ret tt w'
    /\ objects w' = <[this := Monotonic (released m)]> (objects w)
    /\ cells w' = cells w /\ libc w' = libc w
    /\ trace w' = trace w ++ evs
    /\ calls_on (upstream m) evs =
         List.map (free_event (upstream m)) (block_list m).
Proof.
  intros Hthis Hg Hfuel Hwf.
  destruct (release_loop_grounded d fuel this m (block_list m) w Hthis Hg Hfuel Hwf)
    as (w1 & evs & Hrun & Ho & Hc & Hl & Ht & Hon).
  unfold release, monotonic.release, bind, monotonic.load, monotonic.update.
  rewrite Hthis, Hrun, Ho, Hthis. cbn [objects set_objects].
  rewrite lookup_insert_eq.
  eexists _, evs. split; [reflexivity|]. cbn.
  rewrite insert_insert_eq. repeat split; assumption.
Qed.

(** On an arena with no block and no current block, [release] changes
    nothing, whatever the upstream is and with any fuel. *)
Lemma release_empty fuel this m w :
  objects w !! this = Some (Monotonic m) ->
  block_list m = [] -> current m = None ->
  release fuel this w = Ret tt w.
Proof.
  intros Hthis Hl Hc.
  unfold release, monotonic.release, bind, monotonic.load, monotonic.update.
  rewrite Hthis, Hl. cbn. rewrite Hthis. cbn. rewrite lookup_insert_eq.
  f_equal. destruct w as [o l s c t]. unfold set_objects. cbn in *. f_equal.
  rewrite insert_insert_eq. apply insert_id. rewrite Hthis. do 2 f_equal.
  destruct m; cbn in *; subst; reflexivity.
Qed.

(** C1.  [monotonic_buffer_resource::do_deallocate] decides by [bytes] alone:
    for [bytes <= block_size] it returns having done nothing (only the call
    itself is on record, nothing reaches the upstream); for
    [bytes > block_size] it is the upstream's [deallocate] of the same pointer
    and size.  The arena [m] is arbitrary: its block list, current block and
    offset take no part, and [p] need not lie in any block. *)
Theorem monotonic_do_deallocate_threshold fuel d this m p bytes alignment w :
  objects w !! this = Some (Monotonic m) ->
  grounded (objects w) d (upstream m) -> (d < fuel)%nat ->
  p <> nullptr ->
  let w1 := log_event (EvDoDeallocate this p bytes alignment) w in
  (bytes <= block_size m ->
     do_deallocate (S fuel) this p bytes alignment w = Ret tt w1)
  /\ (block_size m < bytes ->
        do_deallocate (S fuel) this p bytes alignment w
        = deallocate fuel (upstream m) p bytes alignof_max_align_t w1)
  /\ exists w' evs,
       do_deallocate (S fuel) this p bytes alignment w = Ret tt w'
       /\ objects w' = objects w
       /\ trace w' = trace w ++ evs
       /\ calls_on (upstream m) evs =
            (if block_size m <? bytes
             then [EvDoDeallocate (upstream m) p bytes alignof_max_align_t]
             else []).
Proof.
  intros Hthis Hg Hfuel Hp w1.
  assert (Hstep : do_deallocate (S fuel) this p bytes alignment w =
                  if block_size m <? bytes
                  then deallocate fuel (upstream m) p bytes alignof_max_align_t w1
                  else Ret tt w1).
  { cbn [do_deallocate]. rewrite Hthis.
    unfold monotonic.do_deallocate, bind, monotonic.load. cbn [objects log_event].
    rewrite Hthis. destruct (block_size m <? bytes); reflexivity. }
  assert (Hne : this <> upstream m).
  { intros Heq.
    assert (Hs : grounded (objects w) (S d) this)
      by (rewrite grounded_unfold, Hthis; exact Hg).
    rewrite <- Heq in Hg. pose proof (grounded_depth _ _ _ _ Hg Hs). lia. }
  split; [|split].
  - intros Hle. rewrite Hstep.
    destruct (Z.ltb_spec (block_size m) bytes); [lia | reflexivity].
  - intros Hlt. rewrite Hstep.
    destruct (Z.ltb_spec (block_size m) bytes); [reflexivity | lia].
  - rewrite Hstep. destruct (block_size m <? bytes).
    + destruct (deallocate_grounded d fuel (upstream m) p bytes
                  alignof_max_align_t w1 Hg Hfuel)
        as (w' & evs & Hrun & Ho & _ & _ & Ht & Hon & _).
      exists w', (EvDoDeallocate this p bytes alignment :: evs).
      rewrite Hrun. repeat split.
      * exact Ho.
      * rewrite Ht. cbn. rewrite <- app_assoc. reflexivity.
      * rewrite calls_on_cons. cbn [event_this].
        destruct (Z.eqb_spec this (upstream m)); [contradiction|].
        rewrite Hon. destruct (Z.eqb_spec p nullptr); [contradiction | reflexivity].
    + exists w1, [EvDoDeallocate this p bytes alignment]. repeat split.
      rewrite calls_on_cons. cbn [event_this].
      destruct (Z.eqb_spec this (upstream m)); [contradiction | reflexivity].
Qed.

Lemma monotonic_do_deallocate_threshold_witness :
  do_deallocate 2 200 5000 4096 64 w_arenas
  = Ret tt (log_event (EvDoDeallocate 200 5000 4096 64) w_arenas)
  /\ do_deallocate 2 200 5000 4097 64 w_arenas
     = deallocate 1 100 5000 4097 alignof_max_align_t
         (log_event (EvDoDeallocate 200 5000 4097 64) w_arenas).
Proof.
  split.
  - apply (monotonic_do_deallocate_threshold 1 0 200 (arena_4096 100 two_blocks)
             5000 4096 64 w_arenas); [reflexivity | reflexivity | lia | discriminate | ].
    vm_compute. discriminate.
  - apply (monotonic_do_deallocate_threshold 1 0 200 (arena_4096 100 two_blocks)
             5000 4097 64 w_arenas); [reflexivity | reflexivity | lia | discriminate | ].
    reflexivity.
Defined.

(** C2.  [allocate] with [bytes == 0] returns [nullptr] and [deallocate] of
    [nullptr] returns, in both cases without the virtual member being
    called: whatever the override is, and for a pointer to any resource and
    any fuel, the world is left as it was. *)
Theorem allocate_zero_deallocate_null :
  (forall do_alloc this alignment w,
     memory_resource.allocate do_alloc this 0 alignment w = Ret nullptr w)
  /\ (forall do_dealloc this bytes alignment w,
        memory_resource.deallocate do_dealloc this nullptr bytes alignment w
        = Ret tt w)
  /\ (forall fuel this alignment w,
        allocate fuel this 0 alignment w = Ret nullptr w)
  /\ (forall fuel this bytes alignment w,
        deallocate fuel this nullptr bytes alignment w = Ret tt w).
Proof. repeat split. Qed.

(** C4.  [release] on an arena over a grounded upstream returns; the calls
    that reach the upstream are one [deallocate] per block, in the order of
    the list from its head, each of the header address with
    [sizeof(block) + size] bytes; afterwards the block list is empty and
    there is no current block; and a second [release] returns with the world
    as the first one left it. *)
Theorem release_frees_each_block_once d fuel this m w :
  objects w !! this = Some (Monotonic m) ->
  grounded (objects w) d (upstream m) -> (d < fuel)%nat ->
  blocks_wf m ->
  exists w' m' evs,
    release fuel this w = Ret tt w'
    /\ trace w' = trace w ++ evs
    /\ calls_on (upstream m) evs =
         List.map
           (fun b => EvDoDeallocate (upstream m) (b_this b)
                       (size_add sizeof_block (b_size b)) alignof_max_align_t)
           (block_list m)
    /\ objects w' !! this = Some (Monotonic m')
    /\ block_list m' = [] /\ current m' = None
    /\ release fuel this w' = Ret tt w'.
Proof.
  intros Hthis Hg Hfuel Hwf.
  destruct (release_grounded d fuel this m w Hthis Hg Hfuel Hwf)
    as (w' & evs & Hrun & Ho & _ & _ & Ht & Hon).
  assert (Hthis' : objects w' !! this = Some (Monotonic (released m)))
    by (rewrite Ho; apply lookup_insert_eq).
  exists w', (released m), evs. repeat split; try assumption.
  eapply release_empty; [exact Hthis' | reflexivity | reflexivity].
Qed.

Lemma release_frees_each_block_once_witness :
  exists w' m' evs,
    release 1 200 w_arenas = Ret tt w'
    /\ trace w' = trace w_arenas ++ evs
    /\ calls_on 100 evs =
         [EvDoDeallocate 100 12288 4120 16; EvDoDeallocate 100 4096 4120 16]
    /\ objects w' !! 200 = Some (Monotonic m')
    /\ block_list m' = [] /\ current m' = None
    /\ release 1 200 w' = Ret tt w'.
Proof.
  apply (release_frees_each_block_once 0 1 200 (arena_4096 100 two_blocks) w_arenas);
    [reflexivity | reflexivity | lia | ].
  repeat constructor; discriminate.
Defined.

(** C9.  A deallocation above the threshold reaches the upstream's
    [do_deallocate] with [alignof(std::max_align_t)]: the only call recorded
    on the upstream carries that alignment, whatever [alignment] the arena
    was called with. *)
Theorem forwarded_deallocate_default_alignment d fuel this m p bytes alignment w :
  objects w !! this = Some (Monotonic m) ->
  grounded (objects w) d (upstream m) -> (d < fuel)%nat ->
  p <> nullptr -> block_size m < bytes ->
  exists w' evs,
    deallocate (S fuel) this p bytes alignment w = Ret tt w'
    /\ trace w' =
         trace w ++ EvDoDeallocate this p bytes alignment
                 :: EvDoDeallocate (upstream m) p bytes alignof_max_align_t
                 :: evs
    /\ calls_on (upstream m) evs = []
    /\ Forall (fun e => exists r,
                 e = EvDoDeallocate r p bytes alignof_max_align_t) evs.
Proof.
  intros Hthis Hg Hfuel Hp Hlt.
  unfold deallocate at 1, memory_resource.deallocate.
  destruct (Z.eqb_spec p nullptr) as [|_]; [contradiction|].
  cbn [do_deallocate]. rewrite Hthis.
  unfold monotonic.do_deallocate, bind, monotonic.load. cbn [objects log_event].
  rewrite Hthis. destruct (Z.ltb_spec (block_size m) bytes) as [_|]; [|lia].
  unfold memory_resource.deallocate.
  destruct (Z.eqb_spec p nullptr) as [|_]; [contradiction|].
  destruct (do_deallocate_grounded d fuel (upstream m) p bytes alignof_max_align_t
              (log_event (EvDoDeallocate this p bytes alignment) w) Hg Hfuel)
    as (w' & evs & Hrun & _ & _ & _ & Ht & Hev).
  exists w', evs. rewrite Hrun. repeat split.
  - rewrite Ht. cbn. rewrite <- app_assoc. reflexivity.
  - eapply calls_on_forwarded; [exact Hg | exact Hev].
  - eapply Forall_impl; [exact Hev|]. intros e (r & _ & -> & _). eauto.
Qed.

Lemma forwarded_deallocate_default_alignment_witness :
  exists w' evs,
    deallocate 2 200 5000 4097 64 w_arenas = Ret tt w'
    /\ trace w' =
         [EvDoDeallocate 200 5000 4097 64; EvDoDeallocate 100 5000 4097 16]
         ++ evs
    /\ calls_on 100 evs = []
    /\ Forall (fun e => exists r, e = EvDoDeallocate r 5000 4097 16) evs.
Proof.
  apply (forwarded_deallocate_default_alignment 0 1 200
           (arena_4096 100 two_blocks) 5000 4097 64 w_arenas);
    [reflexivity | reflexivity | lia | discriminate | reflexivity].
Defined.

(** C10.  After [release] the arena differs from the arena before in
    [block_list] and [current] only: [upstream], [block_size], [current_pos]
    (which is not set back to 0) and [constructTID] are as before, and so is
    every other resource of the store and every live value. *)
Theorem release_frame d fuel this m w :
  objects w !! this = Some (Monotonic m) ->
  grounded (objects w) d (upstream m) -> (d < fuel)%nat ->
  blocks_wf m ->
  exists w' m',
    release fuel this w = Ret tt w'
    /\ objects w' !! this = Some (Monotonic m')
    /\ upstream m' = upstream m
    /\ block_size m' = block_size m
    /\ current_pos m' = current_pos m
    /\ constructTID m' = constructTID m
    /\ m' = set_current None (set_block_list [] m)
    /\ (forall r, r <> this -> objects w' !! r = objects w !! r)
    /\ cells w' = cells w.
Proof.
  intros Hthis Hg Hfuel Hwf.
  destruct (release_grounded d fuel this m w Hthis Hg Hfuel Hwf)
    as (w' & evs & Hrun & Ho & Hc & _ & _ & _).
  exists w', (released m). rewrite Ho. repeat split; try assumption.
  - apply lookup_insert_eq.
  - intros r Hr. apply lookup_insert_ne. congruence.
Qed.

Lemma release_frame_witness :
  exists w' m',
    release 1 200 w_arenas = Ret tt w'
    /\ objects w' !! 200 = Some (Monotonic m')
    /\ upstream m' = 100
    /\ block_size m' = 4096
    /\ current_pos m' = 640
    /\ constructTID m' = 1
    /\ m' = set_current None (set_block_list [] (arena_4096 100 two_blocks))
    /\ (forall r, r <> 200 -> objects w' !! r = objects w_arenas !! r)
    /\ cells w' = cells w_arenas.
Proof.
  apply (release_frame 0 1 200 (arena_4096 100 two_blocks) w_arenas);
    [reflexivity | reflexivity | lia | ].
  repeat constructor; discriminate.
Defined.

(** ** The allocator *)

Lemma size_overflow_test s n :
  1 <= s -> (SIZE_MAX / s <? n) = (SIZE_MAX <? n * s).
Proof.
  intros Hs.
  destruct (Z.ltb_spec (SIZE_MAX / s) n) as [H|H];
    destruct (Z.ltb_spec SIZE_MAX (n * s)) as [H'|H']; try reflexivity; exfalso.
  - pose proof (Z.mul_succ_div_gt SIZE_MAX s ltac:(lia)).
    assert (s * Z.succ (SIZE_MAX / s) <= s * n)
      by (apply Z.mul_le_mono_nonneg_l; lia).
    lia.
  - pose proof (Z.mul_div_le SIZE_MAX s ltac:(lia)).
    assert (s * n <= s * (SIZE_MAX / s))
      by (apply Z.mul_le_mono_nonneg_l; lia).
    lia.
Qed.

(** C5.  [allocate_object<U>(n)] throws [std::bad_array_new_length], with
    the world untouched (no allocation was attempted), exactly when
    [n * sizeof(U)] exceeds [SIZE_MAX]; otherwise it is [allocate_bytes] of
    the exact product [n * sizeof(U)] at [alignof(U)].  The exception is not
    [std::bad_alloc]. *)
Theorem allocate_object_overflow fuel a U n w :
  1 <= sizeof U <= SIZE_MAX -> 0 <= n <= SIZE_MAX ->
  (SIZE_MAX < n * sizeof U ->
     pmr.allocate_object fuel a U n w = Throw bad_array_new_length w)
  /\ (n * sizeof U <= SIZE_MAX ->
        pmr.allocate_object fuel a U n w
        = pmr.allocate_bytes fuel a (n * sizeof U) (alignof U) w)
  /\ bad_array_new_length <> bad_alloc.
Proof.
  intros Hs Hn. unfold pmr.allocate_object.
  rewrite size_overflow_test by lia. repeat split.
  - intros H. destruct (Z.ltb_spec SIZE_MAX (n * sizeof U)); [reflexivity | lia].
  - intros H. destruct (Z.ltb_spec SIZE_MAX (n * sizeof U)); [lia|].
    unfold size_mul. rewrite Z.mod_small; [reflexivity|].
    unfold SIZE_MAX in *. nia.
  - discriminate.
Qed.

Lemma allocate_object_overflow_witness :
  pmr.allocate_object 1 {| memoryResource := 100 |} int_t (2 ^ 62) w_arenas
  = Throw bad_array_new_length w_arenas
  /\ pmr.allocate_object 1 {| memoryResource := 100 |} int_t (2 ^ 62 - 1) w_arenas
     = pmr.allocate_bytes 1 {| memoryResource := 100 |} (2 ^ 64 - 4) 4 w_arenas.
Proof.
  split.
  - apply (allocate_object_overflow 1 {| memoryResource := 100 |} int_t
             (2 ^ 62) w_arenas); [vm_compute | vm_compute | vm_compute; reflexivity];
      split; discriminate.
  - apply (allocate_object_overflow 1 {| memoryResource := 100 |} int_t
             (2 ^ 62 - 1) w_arenas); [vm_compute | vm_compute | vm_compute];
      try (split; discriminate). discriminate.
Defined.

(** ** Equality *)

(** C6.  For a [NewDeleteResource] or a [monotonic_buffer_resource] [A]:
    [A.is_equal(A)] is true and [A.is_equal(B)] is false for every other
    instance [B].  Two allocators that store the pointers [A] and [B] are
    [==] exactly when [A.is_equal(B)] is true, and not [==] exactly when it
    is false: that is, exactly when [A] and [B] are the same instance. *)
Theorem equality_is_identity w A B :
  concrete w A ->
  is_equal w A A = Some true
  /\ (A <> B -> is_equal w A B = Some false)
  /\ (forall a b : polymorphic_allocator,
        memoryResource a = A -> memoryResource b = B ->
        (pmr.eq a b = true <-> is_equal w A B = Some true)
        /\ (pmr.eq a b = false <-> is_equal w A B = Some false)
        /\ (pmr.eq a b = true <-> A = B)).
Proof.
  intros HA.
  assert (H : is_equal w A B = Some (A =? B) /\ is_equal w A A = Some (A =? A)).
  { unfold is_equal, do_is_equal.
    destruct HA as [-> | [m ->]]; split; reflexivity. }
  destruct H as [HAB HAA]. rewrite HAB, HAA, Z.eqb_refl.
  split; [reflexivity|]. split.
  - intros Hne. destruct (Z.eqb_spec A B); [contradiction | reflexivity].
  - intros a b Ha Hb. unfold pmr.eq, pmr.resource. rewrite Ha, Hb.
    split; [split; congruence|]. split; [split; congruence|].
    apply Z.eqb_eq.
Qed.

Lemma equality_is_identity_witness :
  is_equal w_arenas 200 200 = Some true
  /\ (200 <> 300 -> is_equal w_arenas 200 300 = Some false)
  /\ (forall a b : polymorphic_allocator,
        memoryResource a = 200 -> memoryResource b = 300 ->
        (pmr.eq a b = true <-> is_equal w_arenas 200 300 = Some true)
        /\ (pmr.eq a b = false <-> is_equal w_arenas 200 300 = Some false)
        /\ (pmr.eq a b = true <-> 200 = 300)).
Proof.
  apply (equality_is_identity w_arenas 200 300).
  right. exists (arena_4096 100 two_blocks). reflexivity.
Defined.

(** ** Alignment *)

Lemma power_of_two_pos a : power_of_two a -> 0 < a.
Proof. intros (k & Hk & ->). apply Z.pow_pos_nonneg; lia. Qed.

Lemma small_power_divides a :
  power_of_two a -> a < sizeof_void_ptr -> (a | alignof_max_align_t).
Proof.
  intros (k & Hk & ->) Hlt. unfold sizeof_void_ptr in Hlt.
  assert (k < 3) by (apply (Z.pow_lt_mono_r_iff 2); lia).
  assert (Hc : k = 0 \/ k = 1 \/ k = 2) by lia.
  destruct Hc as [-> | [-> | ->]]; [exists 16 | exists 8 | exists 4]; reflexivity.
Qed.

Lemma round_up_aligned pos a : 0 < a -> monotonic.round_up pos a mod a = 0.
Proof.
  intros Ha. unfold monotonic.round_up.
  destruct (Z.eqb_spec (pos mod a) 0) as [H|H]; [exact H|].
  rewrite (Z.div_mod pos a) at 1 by lia.
  replace (a * (pos / a) + pos mod a + (a - pos mod a))
    with ((pos / a + 1) * a) by ring.
  apply Z_mod_mult.
Qed.

Lemma add_aligned base off a :
  0 < a -> off mod a = 0 -> ((base + off) mod a = 0 <-> base mod a = 0).
Proof.
  intros Ha Hoff. rewrite Z.add_mod, Hoff, Z.add_0_r, Z.mod_mod by lia. tauto.
Qed.

Lemma bump_libc_aligns cfg : aligns (bump_libc cfg).
Proof.
  split; cbn; intros.
  - apply round_up_aligned, power_of_two_pos; assumption.
  - apply round_up_aligned. reflexivity.
  - apply round_up_aligned, power_of_two_pos; assumption.
  - apply round_up_aligned, power_of_two_pos; assumption.
Qed.

(** [NewDeleteResource::do_allocate] returns in every configuration, and
    what it returns is a multiple of the alignment. *)
Lemma new_delete_do_allocate_aligned bytes alignment w :
  aligns (libc w) -> power_of_two alignment ->
  exists p w',
    new_delete.do_allocate bytes alignment w = Ret p w'
    /\ p mod alignment = 0 /\ objects w' = objects w.
Proof.
  intros [Ham Hm Hpm Hma] Hpow. unfold new_delete.do_allocate.
  destruct (build (libc w)).
  - eexists _, _. repeat split. apply Ham, Hpow.
  - destruct (Z.ltb_spec alignment sizeof_void_ptr) as [Hlt|Hge].
    + eexists _, _. repeat split.
      destruct (small_power_divides _ Hpow Hlt) as [q Hq].
      specialize (Hm (sys_calls w) bytes).
      apply Z.mod_divide in Hm; [|discriminate].
      apply Z.mod_divide; [pose proof (power_of_two_pos _ Hpow); lia|].
      eapply Z.divide_trans; [exists q; exact Hq | exact Hm].
    + specialize (Hpm (sys_calls w) alignment bytes Hpow).
      destruct (c_posix_memalign (libc w) (sys_calls w) alignment bytes) as [rc ptr].
      eexists _, _. repeat split. cbn in Hpm.
      destruct (Z.eqb_spec rc 0); [auto | apply Z.mod_0_l].
      pose proof (power_of_two_pos _ Hpow); lia.
  - eexists _, _. repeat split. apply Hma, Hpow.
Qed.

(** ** The arena's allocation path *)

Lemma load_eq this m w :
  objects w !! this = Some (Monotonic m) -> monotonic.load this w = Ret m w.
Proof. intros H. unfold monotonic.load. rewrite H. reflexivity. Qed.

Lemma update_eq this m f w :
  objects w !! this = Some (Monotonic m) ->
  monotonic.update this f w
  = Ret tt (set_objects (<[this := Monotonic (f m)]> (objects w)) w).
Proof. intros H. unfold monotonic.update. rewrite H. reflexivity. Qed.

Lemma bump_eq this m b bytes alignment w :
  objects w !! this = Some (Monotonic m) -> current m = Some b ->
  bump this bytes alignment w
  = Ret (b_ptr b + monotonic.round_up (current_pos m) alignment)
      (set_objects
         (<[this := Monotonic
              (set_current_pos
                 (monotonic.round_up (current_pos m) alignment + bytes) m)]>
            (objects w)) w).
Proof.
  intros Hthis Hcur. unfold bump, bind. rewrite (load_eq _ _ _ Hthis), Hcur.
  rewrite (update_eq _ _ _ _ Hthis). reflexivity.
Qed.

Lemma do_allocate_chained up this m bytes alignment w :
  objects w !! this = Some (Monotonic m) -> bytes <= block_size m ->
  monotonic.do_allocate up this bytes alignment w
  = (run (if monotonic.fits m bytes alignment then ret tt
          else grow up this (Z.max bytes (block_size m)));
     bump this bytes alignment) w.
Proof.
  intros Hthis Hle. unfold monotonic.do_allocate. unfold bind at 1.
  rewrite (load_eq _ _ _ Hthis).
  destruct (Z.ltb_spec (block_size m) bytes); [lia | reflexivity].
Qed.

Lemma do_allocate_standalone up this m bytes alignment w :
  objects w !! this = Some (Monotonic m) -> block_size m < bytes ->
  monotonic.do_allocate up this bytes alignment w
  = up (upstream m) bytes alignment w.
Proof.
  intros Hthis Hlt. unfold monotonic.do_allocate. unfold bind at 1.
  rewrite (load_eq _ _ _ Hthis).
  destruct (Z.ltb_spec (block_size m) bytes); [reflexivity | lia].
Qed.

Lemma allocate_system_aligned fuel this bytes alignment w :
  0 < bytes -> power_of_two alignment ->
  objects w !! this = Some NewDeleteResource -> aligns (libc w) ->
  exists p w',
    allocate (S fuel) this bytes alignment w = Ret p w'
    /\ p mod alignment = 0.
Proof.
  intros Hb Hpow Hthis Hal. unfold allocate, memory_resource.allocate.
  destruct (Z.eqb_spec bytes 0); [lia|]. cbn [do_allocate]. rewrite Hthis.
  destruct (new_delete_do_allocate_aligned bytes alignment
              (log_event (EvDoAllocate this bytes alignment) w) Hal Hpow)
    as (p & w' & Hrun & Hp & _).
  exists p, w'. split; assumption.
Qed.

Lemma allocate_monotonic_unfold fuel this m bytes alignment w :
  0 < bytes -> objects w !! this = Some (Monotonic m) ->
  allocate (S fuel) this bytes alignment w
  = monotonic.do_allocate (allocate fuel) this bytes alignment
      (log_event (EvDoAllocate this bytes alignment) w).
Proof.
  intros Hb Hthis. unfold allocate at 1, memory_resource.allocate.
  destruct (Z.eqb_spec bytes 0); [lia|]. cbn [do_allocate]. rewrite Hthis.
  reflexivity.
Qed.

Lemma returned_inv {A} (o : outcome A) a :
  returned o = Some a -> exists w', o = Ret a w'.
Proof. destruct o; cbn; intros [= ->]; eauto. Qed.

(** Over a C library that aligns every block it returns, the block that
    [allocate_block(4096)] takes for the new arena is at 4096 and its
    payload at 4120, and the first 64 bytes asked of that arena at alignment
    16 come at 4120, which is 8 modulo 16. *)
Lemma arena_allocate_misaligned :
  aligns (libc w_arenas)
  /\ returned (allocate_block 1 300 4096 w_arenas) = Some first_block
  /\ b_ptr first_block mod 16 = 8
  /\ exists w', misaligned_request = Ret 4120 w' /\ 4120 mod 16 = 8.
Proof.
  split; [apply bump_libc_aligns|].
  split; [vm_compute; reflexivity|]. split; [reflexivity|].
  destruct (returned_inv misaligned_request 4120) as [w' Hw'];
    [vm_compute; reflexivity|].
  exists w'. split; [exact Hw' | reflexivity].
Qed.

Lemma allocate_system_frame fuel this bytes alignment w :
  0 < bytes -> power_of_two alignment ->
  objects w !! this = Some NewDeleteResource -> aligns (libc w) ->
  exists p w',
    allocate (S fuel) this bytes alignment w = Ret p w'
    /\ p mod alignment = 0 /\ objects w' = objects w.
Proof.
  intros Hb Hpow Hthis Hal. unfold allocate, memory_resource.allocate.
  destruct (Z.eqb_spec bytes 0); [lia|]. cbn [do_allocate]. rewrite Hthis.
  destruct (new_delete_do_allocate_aligned bytes alignment
              (log_event (EvDoAllocate this bytes alignment) w) Hal Hpow)
    as (p & w' & Hrun & Hp & Hobj).
  exists p, w'. split; [exact Hrun|]. split; [exact Hp | exact Hobj].
Qed.

Lemma power_of_two_alignof_block : power_of_two alignof_block.
Proof. exists 3. split; [lia | reflexivity]. Qed.

Lemma power_of_two_divides a b :
  power_of_two a -> power_of_two b -> a <= b -> (a | b).
Proof.
  intros (k & Hk & ->) (l & Hl & ->) Hle.
  assert (k <= l) by (apply (Z.pow_le_mono_r_iff 2); lia).
  exists (2 ^ (l - k)). rewrite <- Z.pow_add_r by lia. f_equal. lia.
Qed.

Lemma round_up_zero a : 0 < a -> monotonic.round_up 0 a = 0.
Proof.
  intros Ha. unfold monotonic.round_up. rewrite Z.mod_0_l by lia. reflexivity.
Qed.

(** The growth step over the system resource: the block comes from one
    request at [alignof(block)]; a null answer is written through, any other
    is a multiple of [alignof(block)] and becomes the current block, with
    the payload [sizeof(block)] after it and the offset 0. *)
Lemma grow_system fuel this m size w :
  objects w !! this = Some (Monotonic m) ->
  objects w !! upstream m = Some NewDeleteResource -> aligns (libc w) ->
  grow (allocate (S fuel)) this size w = Fault
  \/ exists b w' m',
       grow (allocate (S fuel)) this size w = Ret tt w'
       /\ objects w' !! this = Some (Monotonic m')
       /\ current m'
          = Some {| b_this := b; b_ptr := b + sizeof_block; b_size := size |}
       /\ current_pos m' = 0
       /\ b <> nullptr /\ b mod alignof_block = 0.
Proof.
  intros Hthis Hup Hal.
  destruct (Z.eq_dec (size_add sizeof_block size) 0) as [Hz|Hnz].
  { left. unfold grow, monotonic.allocate_block, bind.
    rewrite (load_eq _ _ _ Hthis).
    unfold allocate, memory_resource.allocate. rewrite Hz. reflexivity. }
  assert (Hpos : 0 < size_add sizeof_block size).
  { unfold size_add in *.
    pose proof (Z.mod_pos_bound (sizeof_block + size) (2 ^ 64)). lia. }
  destruct (allocate_system_frame fuel (upstream m) _ alignof_block w Hpos
              power_of_two_alignof_block Hup Hal)
    as (b & w1 & Hrun & Hb & Hobj).
  destruct (Z.eqb_spec b nullptr) as [Hnull|Hnull].
  { left. unfold grow, monotonic.allocate_block, bind.
    rewrite (load_eq _ _ _ Hthis), Hrun.
    destruct (Z.eqb_spec b nullptr); [reflexivity | contradiction]. }
  right. eexists b, _, _. split.
  { unfold grow, monotonic.allocate_block, bind.
    rewrite (load_eq _ _ _ Hthis), Hrun.
    destruct (Z.eqb_spec b nullptr); [contradiction|].
    erewrite update_eq by (rewrite Hobj; exact Hthis). unfold ret.
    erewrite update_eq by (cbn; apply lookup_insert_eq).
    erewrite update_eq by (cbn; apply lookup_insert_eq).
    erewrite update_eq by (cbn; apply lookup_insert_eq).
    reflexivity. }
  cbn. rewrite lookup_insert_eq.
  split; [reflexivity|]. cbn. repeat split; assumption.
Qed.

(** C3, at the failing input and around it.  For [bytes > 0] and an
    alignment that is a power of two, the system resource returns a
    multiple of the alignment, and so does the arena over it for a request
    above its threshold, which it hands on with the same [bytes] and
    [alignment].  For a request within the threshold the arena rounds the
    offset, not the address: the result is the payload base of the current
    block plus the rounded offset, and in a block taken for the request it
    is the address the system resource returned for the block, a multiple
    of [alignof(block)], plus [sizeof(block)].  That is a multiple of every
    alignment up to [alignof(block)]; for the alignment 16 it is not: the
    block that [allocate_block] takes for a new arena at 4096 has its
    payload at 4120, and the first 64 bytes asked of that arena at alignment
    16 come at 4120. *)
Theorem allocate_alignment fuel this bytes alignment w :
  0 < bytes -> power_of_two alignment ->
  (objects w !! this = Some NewDeleteResource -> aligns (libc w) ->
     exists p w',
       allocate (S fuel) this bytes alignment w = Ret p w'
       /\ p mod alignment = 0)
  /\ (forall m, objects w !! this = Some (Monotonic m) ->
        let w1 := log_event (EvDoAllocate this bytes alignment) w in
        (block_size m < bytes ->
           allocate (S fuel) this bytes alignment w
           = allocate fuel (upstream m) bytes alignment w1
           /\ (objects w !! upstream m = Some NewDeleteResource ->
               aligns (libc w) -> (0 < fuel)%nat ->
               exists p w',
                 allocate (S fuel) this bytes alignment w = Ret p w'
                 /\ p mod alignment = 0))
        /\ (bytes <= block_size m ->
            (forall b, current m = Some b ->
               monotonic.fits m bytes alignment = true ->
               exists w',
                 allocate (S fuel) this bytes alignment w
                 = Ret (b_ptr b + monotonic.round_up (current_pos m) alignment)
                     w'
                 /\ monotonic.round_up (current_pos m) alignment
                    mod alignment = 0
                 /\ (b_ptr b mod alignof_block = 0 ->
                     alignment <= alignof_block ->
                     (b_ptr b + monotonic.round_up (current_pos m) alignment)
                     mod alignment = 0))
            /\ (monotonic.fits m bytes alignment = false ->
                objects w !! upstream m = Some NewDeleteResource ->
                aligns (libc w) -> (0 < fuel)%nat ->
                allocate (S fuel) this bytes alignment w = Fault
                \/ exists b w',
                     allocate (S fuel) this bytes alignment w
                     = Ret (b + sizeof_block) w'
                     /\ b <> nullptr /\ b mod alignof_block = 0
                     /\ (alignment <= alignof_block ->
                         (b + sizeof_block) mod alignment = 0))))
  /\ (aligns (libc w_arenas)
      /\ returned (allocate_block 1 300 4096 w_arenas) = Some first_block
      /\ b_ptr first_block mod 16 = 8
      /\ exists w', misaligned_request = Ret 4120 w' /\ 4120 mod 16 = 8).
Proof.
  intros Hb Hpow. pose proof (power_of_two_pos _ Hpow) as Ha.
  assert (Hdiv : forall x, x mod alignof_block = 0 ->
                 alignment <= alignof_block -> x mod alignment = 0).
  { intros x Hx Hle. apply Z.mod_divide; [lia|].
    apply Z.mod_divide in Hx; [|discriminate].
    eapply Z.divide_trans; [|exact Hx].
    apply power_of_two_divides;
      [exact Hpow | exact power_of_two_alignof_block | exact Hle]. }
  split; [|split; [|exact arena_allocate_misaligned]].
  - intros Hthis Hal. apply allocate_system_aligned; assumption.
  - intros m Hthis w1.
    rewrite (allocate_monotonic_unfold _ _ _ _ _ _ Hb Hthis). fold w1.
    assert (Hthis1 : objects w1 !! this = Some (Monotonic m)) by exact Hthis.
    split.
    + intros Hlt. rewrite (do_allocate_standalone _ _ _ _ _ _ Hthis1 Hlt).
      split; [reflexivity|]. intros Hup Hal Hfuel.
      destruct fuel as [|fuel]; [lia|].
      apply allocate_system_aligned; assumption.
    + intros Hle. rewrite (do_allocate_chained _ _ _ _ _ _ Hthis1 Hle).
      split.
      * intros b Hcur Hfit. eexists. split.
        { unfold bind at 1. rewrite Hfit. unfold ret.
          rewrite (bump_eq _ _ _ _ _ _ Hthis1 Hcur). reflexivity. }
        pose proof (round_up_aligned (current_pos m) alignment Ha) as Hoff.
        split; [exact Hoff|]. intros Hbase Hsmall.
        apply (add_aligned (b_ptr b) _ alignment Ha Hoff).
        apply Hdiv; assumption.
      * intros Hfit Hup Hal Hfuel. destruct fuel as [|fuel]; [lia|].
        destruct (grow_system fuel this m (Z.max bytes (block_size m)) w1
                    Hthis1 Hup Hal)
          as [Hg | (b & w' & m' & Hg & Hthis' & Hcur' & Hpos' & Hnz & Hb8)].
        -- left. unfold bind at 1. rewrite Hfit, Hg. reflexivity.
        -- right. eexists b, _. split.
           { unfold bind at 1. rewrite Hfit, Hg.
             rewrite (bump_eq _ _ _ _ _ _ Hthis' Hcur').
             rewrite Hpos', (round_up_zero _ Ha). cbn [b_ptr].
             rewrite Z.add_0_r. reflexivity. }
           split; [exact Hnz|]. split; [exact Hb8|].
           intros Hsmall. apply Hdiv; [|exact Hsmall].
           rewrite Z.add_mod, Hb8 by discriminate. reflexivity.
Qed.

Lemma power_of_two_16 : power_of_two 16.
Proof. exists 4. split; [lia | reflexivity]. Qed.

Lemma power_of_two_8 : power_of_two 8.
Proof. exists 3. split; [lia | reflexivity]. Qed.

Lemma allocate_alignment_witness :
  (exists p w', allocate 1 100 64 16 w_arenas = Ret p w' /\ p mod 16 = 0)
  /\ (exists p w', allocate 2 200 5000 16 w_arenas = Ret p w' /\ p mod 16 = 0)
  /\ (exists w',
        allocate 2 200 64 16 w_arenas
        = Ret (12312 + monotonic.round_up 640 16) w'
        /\ monotonic.round_up 640 16 mod 16 = 0
        /\ (12312 mod alignof_block = 0 -> 16 <= alignof_block ->
            (12312 + monotonic.round_up 640 16) mod 16 = 0))
  /\ (allocate 2 300 64 8 w_arenas = Fault
      \/ exists b w',
           allocate 2 300 64 8 w_arenas = Ret (b + sizeof_block) w'
           /\ b <> nullptr /\ b mod alignof_block = 0
           /\ (8 <= alignof_block -> (b + sizeof_block) mod 8 = 0)).
Proof.
  pose proof (allocate_alignment 0 100 64 16 w_arenas ltac:(lia) power_of_two_16)
    as [Hsys _].
  pose proof (allocate_alignment 1 200 5000 16 w_arenas ltac:(lia) power_of_two_16)
    as [_ [Hbig _]].
  pose proof (allocate_alignment 1 200 64 16 w_arenas ltac:(lia) power_of_two_16)
    as [_ [Hsmall _]].
  pose proof (allocate_alignment 1 300 64 8 w_arenas ltac:(lia) power_of_two_8)
    as [_ [Hnew _]].
  specialize (Hbig (arena_4096 100 two_blocks) eq_refl).
  specialize (Hsmall (arena_4096 100 two_blocks) eq_refl).
  specialize (Hnew new_arena eq_refl).
  cbv zeta in Hbig, Hsmall, Hnew.
  destruct Hbig as [Hbig _]. destruct Hsmall as [_ Hsmall].
  destruct Hnew as [_ Hnew].
  destruct (Hbig ltac:(vm_compute; reflexivity)) as [_ Hbig'].
  destruct (Hsmall ltac:(vm_compute; discriminate)) as [Hcur _].
  destruct (Hnew ltac:(vm_compute; discriminate)) as [_ Hblock].
  split; [|split; [|split]].
  - apply Hsys; [reflexivity | apply bump_libc_aligns].
  - apply Hbig'; [reflexivity | apply bump_libc_aligns | lia].
  - exact (Hcur {| b_this := 12288; b_ptr := 12312; b_size := 4096 |}
             eq_refl eq_refl).
  - apply Hblock; [reflexivity | reflexivity | apply bump_libc_aligns | lia].
Defined.

(** ** Failure of the upstream *)

(** An exception of the upstream leaves [allocate_block] as it came, the
    arena not having been written. *)
Lemma allocate_block_throws up this m size e w w' :
  objects w !! this = Some (Monotonic m) ->
  up (upstream m) (size_add sizeof_block size) alignof_block w = Throw e w' ->
  monotonic.allocate_block up this size w = Throw e w'.
Proof.
  intros Hthis Hup. unfold monotonic.allocate_block, bind.
  rewrite (load_eq _ _ _ Hthis), Hup. reflexivity.
Qed.

(** A null pointer from the upstream is written through. *)
Lemma allocate_block_null up this m size w w' :
  objects w !! this = Some (Monotonic m) ->
  up (upstream m) (size_add sizeof_block size) alignof_block w = Ret nullptr w' ->
  monotonic.allocate_block up this size w = Fault.
Proof.
  intros Hthis Hup. unfold monotonic.allocate_block, bind.
  rewrite (load_eq _ _ _ Hthis), Hup. reflexivity.
Qed.

(** Whatever the upstream's [allocate] does with the one request the arena
    makes of it, when it does not return an address the arena's [allocate]
    ends the same way, except for a null pointer returned for a block. *)
Lemma arena_allocate_propagates fuel this m bytes alignment e w w' :
  0 < bytes -> objects w !! this = Some (Monotonic m) ->
  let w1 := log_event (EvDoAllocate this bytes alignment) w in
  (block_size m < bytes ->
     allocate (S fuel) this bytes alignment w
     = allocate fuel (upstream m) bytes alignment w1)
  /\ (bytes <= block_size m -> monotonic.fits m bytes alignment = false ->
      allocate fuel (upstream m)
        (size_add sizeof_block (Z.max bytes (block_size m))) alignof_block w1
      = Throw e w' ->
      allocate (S fuel) this bytes alignment w = Throw e w').
Proof.
  intros Hb Hthis w1.
  rewrite (allocate_monotonic_unfold _ _ _ _ _ _ Hb Hthis). fold w1.
  assert (Hthis1 : objects w1 !! this = Some (Monotonic m)) by exact Hthis.
  split.
  - intros Hlt. apply do_allocate_standalone; assumption.
  - intros Hle Hfit Hup. rewrite (do_allocate_chained _ _ _ _ _ _ Hthis1 Hle).
    unfold bind at 1. rewrite Hfit. unfold grow. unfold bind at 1.
    rewrite (allocate_block_throws _ _ _ _ _ _ _ Hthis1 Hup). reflexivity.
Qed.

(** C8, at the failing input.  Out of memory, the system resource answers
    the arena's request for a block with a null pointer; [allocate_block]
    then writes the header through it, and neither [allocate_block] nor the
    arena's [allocate] hands the failure to its caller. *)
Theorem allocate_block_null_upstream :
  returned (allocate 1 100 (size_add sizeof_block 4096) alignof_block w_oom)
  = Some nullptr
  /\ allocate_block 1 300 4096 w_oom = Fault
  /\ allocate 2 300 64 8 w_oom = Fault.
Proof. repeat split; vm_compute; reflexivity. Qed.


(** *** The growth path over any resource that serves fresh regions *)

Section growth.
Variable fuel : nat.
Variable Tp : ctype.
Variable a : polymorphic_allocator.

(** [R live w]: in [w] the resource of [a] has handed out the regions of
    [live], each an address and a size in bytes, and not taken them
    back.  It returns regions apart from those, at positive addresses;
    it does not touch the stored values, and it does not depend on
    them. *)
Variable R : list (addr * Z) -> world -> Prop.

Hypothesis Tp_size : 1 <= sizeof Tp.
Hypothesis Tp_align : 0 < alignof Tp.

Hypothesis R_allocate : forall live w bytes alignment,
  R live w -> 0 < bytes -> 0 < alignment ->
  exists p w',
    allocate fuel (pmr.resource a) bytes alignment w = Ret p w'
    /\ 0 < p /\ cells w' = cells w
    /\ R ((p, bytes) :: live) w'
    /\ Forall (fun r => p + bytes <= fst r \/ fst r + snd r <= p) live
    /\ calls_on (pmr.resource a) (trace w')
       = calls_on (pmr.resource a) (trace w)
         ++ [EvDoAllocate (pmr.resource a) bytes alignment].

Hypothesis R_deallocate : forall l1 l2 w p bytes alignment,
  R (l1 ++ (p, bytes) :: l2) w -> p <> nullptr ->
  exists w',
    deallocate fuel (pmr.resource a) p bytes alignment w = Ret tt w'
    /\ cells w' = cells w
    /\ R (l1 ++ l2) w'
    /\ calls_on (pmr.resource a) (trace w')
       = calls_on (pmr.resource a) (trace w)
         ++ [EvDoDeallocate (pmr.resource a) p bytes alignment].

Hypothesis R_cells : forall live w c, R live w -> R live (set_cells c w).

Lemma at_inj p i j : vec.at_ Tp p i = vec.at_ Tp p j -> i = j.
Proof. unfold vec.at_. nia. Qed.

Lemma set_cells_set_cells c1 c2 w :
  set_cells c2 (set_cells c1 w) = set_cells c2 w.
Proof. reflexivity. Qed.

Lemma set_cells_id w : set_cells (cells w) w = w.
Proof. destruct w; reflexivity. Qed.

Lemma move_loop_spec v ra : forall (ys : list Z) i w,
  0 <= i -> 0 < ra ->
  (forall (j : nat) y, ys !! j = Some y ->
     cells w !! vec.at_ Tp (ptr v) (i + Z.of_nat j) = Some y) ->
  (forall j j' : nat, (j < length ys)%nat -> (j' < length ys)%nat ->
     vec.at_ Tp ra (i + Z.of_nat j) <> vec.at_ Tp (ptr v) (i + Z.of_nat j')) ->
  exists c',
    vec.move_loop Tp v ra i (length ys) w = Ret tt (set_cells c' w)
    /\ (forall (j : nat) y, ys !! j = Some y ->
          c' !! vec.at_ Tp ra (i + Z.of_nat j) = Some y)
    /\ (forall j : nat, (j < length ys)%nat ->
          c' !! vec.at_ Tp (ptr v) (i + Z.of_nat j) = None)
    /\ (forall q,
          (forall j : nat, (j < length ys)%nat ->
             q <> vec.at_ Tp ra (i + Z.of_nat j)
             /\ q <> vec.at_ Tp (ptr v) (i + Z.of_nat j)) ->
          c' !! q = cells w !! q).
Proof.
  induction ys as [|y ys IH]; intros i w Hi Hra Hold Hapart.
  - exists (cells w). rewrite set_cells_id. repeat split.
    + intros j y' Hj. rewrite lookup_nil in Hj. discriminate.
    + cbn. intros j Hj. lia.
  - cbn [length vec.move_loop]. unfold bind at 1. unfold vec.read.
    pose proof (Hold O y eq_refl) as H0. rewrite Z.add_0_r in H0.
    rewrite H0. unfold bind at 1. unfold pmr.construct.
    destruct (Z.eqb_spec (vec.at_ Tp ra i) nullptr) as [Hz|_].
    { unfold vec.at_, nullptr in Hz. nia. }
    unfold bind at 1. unfold pmr.destroy. cbn [cells set_cells].
    assert (Hne : vec.at_ Tp ra i <> vec.at_ Tp (ptr v) i).
    { pose proof (Hapart O O ltac:(cbn; lia) ltac:(cbn; lia)) as H.
      rewrite !Z.add_0_r in H. exact H. }
    rewrite lookup_insert_ne by exact Hne. rewrite H0.
    rewrite set_cells_set_cells.
    set (c1 := delete (vec.at_ Tp (ptr v) i) (<[vec.at_ Tp ra i := y]> (cells w))).
    destruct (IH (i + 1) (set_cells c1 w)) as (c' & Hrun & Hnew & Hgone & Hframe).
    + lia.
    + exact Hra.
    + intros j y' Hj. cbn [cells set_cells]. unfold c1.
      replace (i + 1 + Z.of_nat j) with (i + Z.of_nat (S j)) by lia.
      rewrite lookup_delete_ne
        by (intros H; apply at_inj in H; lia).
      rewrite lookup_insert_ne.
      * apply Hold. exact Hj.
      * pose proof (Hapart O (S j) ltac:(cbn; lia)
                      ltac:(cbn; apply lookup_lt_Some in Hj; lia)) as H.
        rewrite Z.add_0_r in H. exact H.
    + intros j j' Hj Hj'.
      replace (i + 1 + Z.of_nat j) with (i + Z.of_nat (S j)) by lia.
      replace (i + 1 + Z.of_nat j') with (i + Z.of_nat (S j')) by lia.
      apply Hapart; cbn; lia.
    + exists c'. rewrite Hrun, set_cells_set_cells. split; [reflexivity|].
      cbn [cells set_cells] in Hframe. split; [|split].
      * intros [|j] y' Hj.
        -- cbn in Hj. injection Hj as <-. rewrite Z.add_0_r.
           rewrite Hframe.
           ++ unfold c1. rewrite lookup_delete_ne by congruence.
              apply lookup_insert_eq.
           ++ intros k Hk. split.
              ** intros H. apply at_inj in H. lia.
              ** replace (i + 1 + Z.of_nat k) with (i + Z.of_nat (S k)) by lia.
                 pose proof (Hapart O (S k) ltac:(cbn; lia) ltac:(cbn; lia)) as H.
                 rewrite Z.add_0_r in H. exact H.
        -- replace (i + Z.of_nat (S j)) with (i + 1 + Z.of_nat j) by lia.
           apply Hnew. exact Hj.
      * intros [|j] Hj.
        -- rewrite Z.add_0_r, Hframe.
           ++ unfold c1. apply lookup_delete_eq.
           ++ intros k Hk. split.
              ** replace (i + 1 + Z.of_nat k) with (i + Z.of_nat (S k)) by lia.
                 pose proof (Hapart (S k) O ltac:(cbn; lia) ltac:(cbn; lia)) as H.
                 rewrite Z.add_0_r in H. congruence.
              ** intros H. apply at_inj in H. lia.
        -- replace (i + Z.of_nat (S j)) with (i + 1 + Z.of_nat j) by lia.
           apply Hgone. cbn in Hj. lia.
      * intros q Hq. rewrite Hframe.
        -- unfold c1. destruct (Hq O ltac:(cbn; lia)) as [Hq1 Hq2].
           rewrite Z.add_0_r in Hq1, Hq2.
           rewrite lookup_delete_ne by congruence.
           apply lookup_insert_ne. congruence.
        -- intros k Hk.
           replace (i + 1 + Z.of_nat k) with (i + Z.of_nat (S k)) by lia.
           apply Hq. cbn. lia.
Qed.

Lemma region_apart ra n p m (j j' : nat) :
  ra + n * sizeof Tp <= p \/ p + m * sizeof Tp <= ra ->
  Z.of_nat j < n -> Z.of_nat j' < m ->
  vec.at_ Tp ra (0 + Z.of_nat j) <> vec.at_ Tp p (0 + Z.of_nat j').
Proof. unfold vec.at_. intros H Hj Hj'. nia. Qed.

(** [reserve(n)] beyond the capacity: one allocation of [n] elements, the
    values moved in order to the new region, the old ones destroyed, then
    the old region given back. *)
Lemma reserve_spec others v xs n w :
  vec_inv Tp a R others v xs w -> nAlloc v < n -> n * sizeof Tp <= SIZE_MAX ->
  exists v' w',
    vec.reserve fuel Tp v n w = Ret v' w'
    /\ vec_inv Tp a R others v' xs w'
    /\ nAlloc v' = n
    /\ (forall j : nat, (j < length xs)%nat ->
          cells w' !! vec.at_ Tp (ptr v) (Z.of_nat j) = None)
    /\ calls_on (pmr.resource a) (trace w')
       = calls_on (pmr.resource a) (trace w)
         ++ EvDoAllocate (pmr.resource a) (n * sizeof Tp) (alignof Tp)
         :: (if nAlloc v =? 0 then []
             else [EvDoDeallocate (pmr.resource a) (ptr v)
                     (nAlloc v * sizeof Tp) (alignof Tp)]).
Proof.
  intros [Ha Hlen Hcap Hnull Hptr HR Hcells] Hn Hmax.
  assert (Hn0 : 0 <= nAlloc v) by lia.
  unfold vec.reserve. destruct (Z.leb_spec n (nAlloc v)) as [|_]; [lia|].
  unfold bind at 1. unfold pmr.allocate_object.
  rewrite size_overflow_test by lia.
  destruct (Z.ltb_spec SIZE_MAX (n * sizeof Tp)) as [|_]; [lia|].
  unfold pmr.allocate_bytes, size_mul.
  rewrite Z.mod_small by (unfold SIZE_MAX in Hmax; nia). rewrite Ha.
  destruct (R_allocate _ w (n * sizeof Tp) (alignof Tp) HR ltac:(nia) Tp_align)
    as (ra & w1 & Hrun & Hra & Hc1 & HR1 & Hfresh & Ht1).
  rewrite Hrun. unfold bind at 1.
  rewrite Hlen, Nat2Z.id.
  destruct (move_loop_spec v ra xs 0 w1) as (c' & Hmove & Hnew & Hgone & _).
  - lia.
  - exact Hra.
  - intros j y Hj. rewrite Hc1, Z.add_0_l. apply Hcells, Hj.
  - intros j j' Hj Hj'. unfold region in Hfresh.
    destruct (Z.eqb_spec (nAlloc v) 0) as [H0|H0]; [lia|].
    apply Forall_app in Hfresh as [Hfresh _].
    apply Forall_cons in Hfresh as [Hfresh _]. cbn in Hfresh.
    apply (region_apart ra n (ptr v) (nAlloc v)); [exact Hfresh | lia | lia].
  - rewrite Hmove. unfold bind at 1.
    unfold pmr.deallocate_object, pmr.deallocate_bytes, size_mul.
    rewrite Z.mod_small by (unfold SIZE_MAX in Hmax; nia).
    assert (Hn' : (n =? 0) = false) by (apply Z.eqb_neq; lia).
    destruct (Z.eqb_spec (nAlloc v) 0) as [H0|H0].
    + rewrite (Hnull H0). unfold deallocate, memory_resource.deallocate.
      cbn [Z.eqb nullptr]. unfold ret.
      eexists _, _. split; [reflexivity|]. repeat split; cbn.
      * lia.
      * intros Hz. lia.
      * intros _. exact Hra.
      * unfold region in *. cbn. rewrite Hn'.
        apply R_cells. destruct (Z.eqb_spec (nAlloc v) 0); [exact HR1 | contradiction].
      * intros j y Hj. specialize (Hnew j y Hj). rewrite Z.add_0_l in Hnew.
        exact Hnew.
      * intros j Hj. exfalso. lia.
      * exact Ht1.
    + assert (HR2 : R ([(ra, n * sizeof Tp)]
                         ++ (ptr v, nAlloc v * sizeof Tp) :: others)
                      (set_cells c' w1)).
      { apply R_cells. unfold region in HR1.
        destruct (Z.eqb_spec (nAlloc v) 0); [contradiction | exact HR1]. }
      destruct (R_deallocate _ _ _ _ _ (alignof Tp) HR2) as (w2 & Hrun2 & Hc2 & HR3 & Ht2).
      { pose proof (Hptr ltac:(lia)). unfold nullptr. lia. }
      rewrite Hrun2. unfold ret.
      eexists _, _. split; [reflexivity|]. repeat split; cbn.
      * lia.
      * intros Hz. lia.
      * intros _. exact Hra.
      * unfold region. cbn. rewrite Hn'. exact HR3.
      * intros j y Hj. rewrite Hc2. specialize (Hnew j y Hj).
        rewrite Z.add_0_l in Hnew. exact Hnew.
      * intros j Hj. rewrite Hc2. specialize (Hgone j Hj).
        rewrite Z.add_0_l in Hgone. exact Hgone.
      * rewrite Ht2. cbn [trace set_cells]. rewrite Ht1, <- app_assoc.
        reflexivity.
Qed.

Lemma push_back_unfold v x :
  vec.push_back fuel Tp v x
  = (do v <- (if nAlloc v =? nStored v then
                vec.reserve fuel Tp v
                  (if nAlloc v =? 0 then 4 else size_mul 2 (nAlloc v))
              else ret v);
     run pmr.construct (vec.at_ Tp (ptr v) (nStored v)) x;
     ret (set_nStored (size_add (nStored v) 1) v)).
Proof. reflexivity. Qed.

Lemma next_capacity_wrap cap :
  0 <= cap -> next_capacity cap * sizeof Tp <= SIZE_MAX ->
  (if cap =? 0 then 4 else size_mul 2 cap) = next_capacity cap.
Proof.
  intros H0 Hmax. unfold next_capacity in *.
  destruct (cap =? 0); [reflexivity|].
  unfold size_mul. apply Z.mod_small. unfold SIZE_MAX in Hmax. nia.
Qed.

Lemma push_back_spec others v xs x w :
  vec_inv Tp a R others v xs w ->
  (nAlloc v = nStored v -> next_capacity (nAlloc v) * sizeof Tp <= SIZE_MAX) ->
  nStored v < SIZE_MAX ->
  exists v' w',
    vec.push_back fuel Tp v x w = Ret v' w'
    /\ vec_inv Tp a R others v' (xs ++ [x]) w'
    /\ nAlloc v' = (if nAlloc v =? nStored v then next_capacity (nAlloc v)
                    else nAlloc v)
    /\ nStored v' = nStored v + 1
    /\ calls_on (pmr.resource a) (trace w')
       = calls_on (pmr.resource a) (trace w) ++ growth_calls Tp a v.
Proof.
  intros Hinv Hmax Hst.
  assert (Hstep : exists v1 w1,
    (if nAlloc v =? nStored v
     then vec.reserve fuel Tp v
            (if nAlloc v =? 0 then 4 else size_mul 2 (nAlloc v))
     else ret v) w = Ret v1 w1
    /\ vec_inv Tp a R others v1 xs w1
    /\ nAlloc v1 = (if nAlloc v =? nStored v then next_capacity (nAlloc v)
                    else nAlloc v)
    /\ nStored v1 < nAlloc v1
    /\ calls_on (pmr.resource a) (trace w1)
       = calls_on (pmr.resource a) (trace w) ++ growth_calls Tp a v).
  { unfold growth_calls.
    destruct (Z.eqb_spec (nAlloc v) (nStored v)) as [Hfull|Hroom].
    - specialize (Hmax Hfull).
      assert (H0 : 0 <= nAlloc v) by (destruct Hinv; lia).
      rewrite (next_capacity_wrap _ H0 Hmax).
      destruct (reserve_spec others v xs (next_capacity (nAlloc v)) w Hinv)
        as (v1 & w1 & Hrun & Hinv1 & Hn1 & _ & Ht1).
      + unfold next_capacity. destruct (Z.eqb_spec (nAlloc v) 0); lia.
      + exact Hmax.
      + exists v1, w1. split; [exact Hrun|]. split; [exact Hinv1|].
        split; [exact Hn1|]. split; [|exact Ht1].
        rewrite Hn1. destruct Hinv, Hinv1.
        unfold next_capacity. destruct (Z.eqb_spec (nAlloc v) 0); lia.
    - exists v, w. rewrite app_nil_r.
      split; [reflexivity|]. split; [exact Hinv|].
      split; [reflexivity|]. split; [|reflexivity].
      destruct Hinv. lia. }
  destruct Hstep as (v1 & w1 & Hrun & [Ha Hlen Hcap Hnull Hptr HR Hcells]
                        & Hn1 & Hroom & Ht).
  assert (Hst1 : nStored v1 = nStored v) by (destruct Hinv; lia).
  rewrite push_back_unfold. unfold bind at 1. rewrite Hrun.
  unfold bind at 1. unfold pmr.construct.
  assert (Hp : 0 < ptr v1) by (apply Hptr; lia).
  destruct (Z.eqb_spec (vec.at_ Tp (ptr v1) (nStored v1)) nullptr) as [Hz|_].
  { unfold vec.at_, nullptr in Hz. nia. }
  unfold ret, size_add.
  rewrite Z.mod_small by (unfold SIZE_MAX in *; lia).
  assert (Hne : forall j : nat, (j < length xs)%nat ->
            vec.at_ Tp (ptr v1) (nStored v1) <> vec.at_ Tp (ptr v1) (Z.of_nat j)).
  { intros j Hj H. apply at_inj in H. lia. }
  eexists _, _. split; [reflexivity|].
  split; [|split; [exact Hn1 | split; [cbn; lia | exact Ht]]].
  split; cbn.
  - exact Ha.
  - rewrite length_app. cbn. lia.
  - lia.
  - intros Hz. lia.
  - intros _. exact Hp.
  - apply (R_cells _ w1). exact HR.
  - intros j y Hj. destruct (lookup_app_Some xs [x] j y) as [H _].
    destruct (H Hj) as [Hin | [Hge Hlast]].
    + rewrite lookup_insert_ne
        by (apply Hne; apply lookup_lt_Some in Hin; exact Hin).
      apply Hcells, Hin.
    + assert (j = length xs).
      { apply lookup_lt_Some in Hlast. cbn in Hlast. lia. }
      subst j. rewrite Nat.sub_diag in Hlast. cbn in Hlast.
      injection Hlast as <-. rewrite <- Hlen. apply lookup_insert_eq.
Qed.




Lemma map_seq_lookup (f : nat -> option Z) : forall (xs : list Z) (k : nat),
  (forall (i : nat) x, xs !! i = Some x -> f (k + i)%nat = Some x) ->
  List.map f (seq k (length xs)) = List.map Some xs.
Proof.
  induction xs as [|x xs IH]; intros k Hf; [reflexivity|].
  cbn. f_equal.
  - rewrite <- (Nat.add_0_r k). apply Hf. reflexivity.
  - apply IH. intros i y Hi.
    replace (S k + i)%nat with (k + S i)%nat by lia. apply Hf. exact Hi.
Qed.

Lemma vec_inv_elements others v xs w :
  vec_inv Tp a R others v xs w -> vec.elements Tp v w = List.map Some xs.
Proof.
  intros [_ Hlen _ _ _ _ Hcells]. unfold vec.elements.
  rewrite Hlen, Nat2Z.id. apply map_seq_lookup.
  intros i x Hi. cbn. apply Hcells, Hi.
Qed.

Lemma vec_inv_empty others w :
  R others w -> vec_inv Tp a R others (vec.empty a) [] w.
Proof.
  intros HR. split; cbn; try reflexivity; try lia.
  - exact HR.
  - intros i x Hi. rewrite lookup_nil in Hi. discriminate.
Qed.

Lemma growth_hundred : growth 0 0 100 = [4; 8; 16; 32; 64; 128].
Proof. reflexivity. Qed.


End growth.

(** *** The system resource serves fresh regions *)

Lemma round_up_ge pos a : 0 < a -> pos <= monotonic.round_up pos a.
Proof.
  intros Ha. unfold monotonic.round_up.
  destruct (pos mod a =? 0); [lia|].
  pose proof (Z.mod_pos_bound pos a Ha). lia.
Qed.

Lemma bump_brk_snoc h c :
  bump_brk (h ++ [c]) =
  match c with
  | SysAlignedMalloc n a => monotonic.round_up (bump_brk h) a + n
  | SysMalloc n => monotonic.round_up (bump_brk h) alignof_max_align_t + n
  | SysPosixMemalign a n => monotonic.round_up (bump_brk h) a + n
  | SysMemalign a n => monotonic.round_up (bump_brk h) a + n
  | SysAlignedFree _ => bump_brk h
  | SysFree _ => bump_brk h
  end.
Proof. unfold bump_brk. rewrite fold_left_app. reflexivity. Qed.

Lemma R_sys_allocate live w bytes alignment :
  R_sys live w -> 0 < bytes -> 0 < alignment ->
  exists p w',
    allocate 1 (pmr.resource sys_alloc) bytes alignment w = Ret p w'
    /\ 0 < p /\ cells w' = cells w
    /\ R_sys ((p, bytes) :: live) w'
    /\ Forall (fun r => p + bytes <= fst r \/ fst r + snd r <= p) live
    /\ calls_on (pmr.resource sys_alloc) (trace w')
       = calls_on (pmr.resource sys_alloc) (trace w)
         ++ [EvDoAllocate (pmr.resource sys_alloc) bytes alignment].
Proof.
  intros (Hobj & Hlibc & Hbrk & Hlive) Hb Ha.
  change (pmr.resource sys_alloc) with 100.
  assert (Hrun : allocate 1 100 bytes alignment w
                 = Ret (monotonic.round_up (bump_brk (sys_calls w)) alignment)
                     (log_sys (SysMemalign alignment bytes)
                        (log_event (EvDoAllocate 100 bytes alignment) w))).
  { unfold allocate, memory_resource.allocate.
    destruct (Z.eqb_spec bytes 0); [lia|]. cbn [do_allocate]. rewrite Hobj.
    unfold new_delete.do_allocate. cbn [libc log_event sys_calls].
    rewrite Hlibc. reflexivity. }
  pose proof (round_up_ge (bump_brk (sys_calls w)) alignment Ha) as Hge.
  eexists _, _. split; [exact Hrun|]. unfold R_sys.
  cbn [cells objects libc sys_calls trace log_sys log_event].
  rewrite !bump_brk_snoc. repeat split.
  - lia.
  - exact Hobj.
  - exact Hlibc.
  - lia.
  - constructor; [cbn; lia|].
    eapply Forall_impl; [exact Hlive|]. cbn. intros r Hr. lia.
  - eapply Forall_impl; [exact Hlive|]. cbn. intros r Hr. lia.
  - rewrite calls_on_app. reflexivity.
Qed.

Lemma R_sys_deallocate l1 l2 w p bytes alignment :
  R_sys (l1 ++ (p, bytes) :: l2) w -> p <> nullptr ->
  exists w',
    deallocate 1 (pmr.resource sys_alloc) p bytes alignment w = Ret tt w'
    /\ cells w' = cells w
    /\ R_sys (l1 ++ l2) w'
    /\ calls_on (pmr.resource sys_alloc) (trace w')
       = calls_on (pmr.resource sys_alloc) (trace w)
         ++ [EvDoDeallocate (pmr.resource sys_alloc) p bytes alignment].
Proof.
  intros (Hobj & Hlibc & Hbrk & Hlive) Hp.
  change (pmr.resource sys_alloc) with 100.
  assert (Hrun : deallocate 1 100 p bytes alignment w
                 = Ret tt (log_sys (SysFree p)
                             (log_event (EvDoDeallocate 100 p bytes alignment) w))).
  { unfold deallocate, memory_resource.deallocate.
    destruct (Z.eqb_spec p nullptr); [contradiction|]. cbn [do_deallocate].
    rewrite Hobj. unfold new_delete.do_deallocate.
    destruct (Z.eqb_spec p nullptr); [contradiction|].
    cbn [libc log_event]. rewrite Hlibc. reflexivity. }
  eexists. split; [exact Hrun|]. unfold R_sys.
  cbn [cells objects libc sys_calls trace log_sys log_event].
  rewrite !bump_brk_snoc. repeat split.
  - exact Hobj.
  - exact Hlibc.
  - exact Hbrk.
  - apply Forall_app in Hlive as [H1 H2].
    apply Forall_cons in H2 as [_ H2]. apply Forall_app. split; assumption.
  - rewrite calls_on_app. reflexivity.
Qed.

Lemma R_sys_cells live w c : R_sys live w -> R_sys live (set_cells c w).
Proof. intros H. exact H. Qed.

Lemma R_sys_initial : R_sys [] w_sys.
Proof. repeat split; [vm_compute; discriminate | constructor]. Qed.


(** * Further properties of the code *)

(** ** The system resource *)

(** X1.  [new_delete_resource()] creates the system resource on the first
    call only: it returns a non-null pointer to a live [NewDeleteResource],
    leaves a resource that already exists alone, and a further call returns
    the same pointer with the world unchanged. *)
Theorem new_delete_resource_once fresh fresh' ndr w :
  ndr_ok ndr w -> fresh <> nullptr ->
  exists r w1,
    new_delete_resource fresh ndr w = (r, (r, w1))
    /\ r <> nullptr
    /\ objects w1 !! r = Some NewDeleteResource
    /\ (ndr <> nullptr -> r = ndr /\ w1 = w)
    /\ (forall x, x <> r -> objects w1 !! x = objects w !! x)
    /\ new_delete_resource fresh' r w1 = (r, (r, w1)).
Proof.
  intros Hok Hfresh. unfold new_delete_resource.
  destruct (Z.eqb_spec ndr nullptr) as [->|Hndr].
  - eexists _, _. split; [reflexivity|]. cbn [objects set_objects].
    destruct (Z.eqb_spec fresh nullptr) as [|_]; [contradiction|].
    split; [exact Hfresh|]. split; [apply lookup_insert_eq|].
    split; [intros Hn; contradiction|].
    split; [|reflexivity].
    intros x Hx. apply lookup_insert_ne. congruence.
  - destruct Hok as [|Hlive]; [contradiction|].
    eexists _, _. split; [reflexivity|].
    destruct (Z.eqb_spec ndr nullptr) as [|_]; [contradiction|].
    repeat split; assumption.
Qed.

Lemma new_delete_resource_once_witness :
  exists r w1,
    new_delete_resource 100 nullptr (world_of (bump_libc HAVE_NEITHER) ∅)
    = (r, (r, w1))
    /\ r <> nullptr
    /\ objects w1 !! r = Some NewDeleteResource
    /\ (nullptr <> nullptr ->
        r = nullptr /\ w1 = world_of (bump_libc HAVE_NEITHER) ∅)
    /\ (forall x, x <> r ->
          objects w1 !! x = objects (world_of (bump_libc HAVE_NEITHER) ∅) !! x)
    /\ new_delete_resource 555 r w1 = (r, (r, w1)).
Proof.
  apply (new_delete_resource_once 100 555 nullptr
           (world_of (bump_libc HAVE_NEITHER) ∅)).
  - left. reflexivity.
  - discriminate.
Defined.

(** X2.  Two default-constructed allocators refer to the same live system
    resource: they compare equal, and so do their resources. *)
Theorem default_allocators_equal fresh fresh' ndr w :
  ndr_ok ndr w -> fresh <> nullptr ->
  exists a b ndr1 w1,
    default_allocator fresh ndr w = (a, (ndr1, w1))
    /\ default_allocator fresh' ndr1 w1 = (b, (ndr1, w1))
    /\ pmr.eq a b = true
    /\ is_equal w1 (pmr.resource a) (pmr.resource b) = Some true
    /\ objects w1 !! pmr.resource a = Some NewDeleteResource.
Proof.
  intros Hok Hfresh.
  assert (H : exists r w1,
            new_delete_resource fresh ndr w = (r, (r, w1))
            /\ objects w1 !! r = Some NewDeleteResource
            /\ new_delete_resource fresh' r w1 = (r, (r, w1))).
  { unfold new_delete_resource.
    destruct (Z.eqb_spec ndr nullptr) as [->|Hndr].
    - eexists _, _. split; [reflexivity|]. cbn [objects set_objects].
      destruct (Z.eqb_spec fresh nullptr) as [|_]; [contradiction|].
      split; [apply lookup_insert_eq | reflexivity].
    - destruct Hok as [|Hlive]; [contradiction|].
      eexists _, _. split; [reflexivity|].
      destruct (Z.eqb_spec ndr nullptr) as [|_]; [contradiction|].
      split; [exact Hlive | reflexivity]. }
  destruct H as (r & w1 & H1 & Hlive & H2).
  exists {| memoryResource := r |}, {| memoryResource := r |}, r, w1.
  unfold default_allocator. rewrite H1, H2.
  repeat split; cbn.
  - apply Z.eqb_refl.
  - unfold is_equal, do_is_equal. rewrite Hlive.
    unfold new_delete.do_is_equal. rewrite Z.eqb_refl. reflexivity.
  - exact Hlive.
Qed.

Lemma default_allocators_equal_witness :
  exists a b ndr1 w1,
    default_allocator 100 nullptr (world_of (bump_libc HAVE_NEITHER) ∅)
    = (a, (ndr1, w1))
    /\ default_allocator 555 ndr1 w1 = (b, (ndr1, w1))
    /\ pmr.eq a b = true
    /\ is_equal w1 (pmr.resource a) (pmr.resource b) = Some true
    /\ objects w1 !! pmr.resource a = Some NewDeleteResource.
Proof.
  apply (default_allocators_equal 100 555 nullptr
           (world_of (bump_libc HAVE_NEITHER) ∅)).
  - left. reflexivity.
  - discriminate.
Defined.

Lemma system_allocate_call fuel this bytes alignment w :
  objects w !! this = Some NewDeleteResource -> 0 < bytes ->
  exists p c,
    allocate (S fuel) this bytes alignment w
    = Ret p (log_sys c (log_event (EvDoAllocate this bytes alignment) w))
    /\ is_allocation c = true
    /\ (build (libc w) = HAVE__ALIGNED_MALLOC
        <-> exists n a, c = SysAlignedMalloc n a).
Proof.
  intros Hthis Hb. unfold allocate, memory_resource.allocate.
  destruct (Z.eqb_spec bytes 0); [lia|]. cbn [do_allocate]. rewrite Hthis.
  unfold new_delete.do_allocate. cbn [libc log_event sys_calls].
  destruct (build (libc w)) eqn:Hbuild.
  - eexists _, _. split; [reflexivity|]. split; [reflexivity|].
    split; [eauto | reflexivity].
  - destruct (alignment <? sizeof_void_ptr).
    + eexists _, _. split; [reflexivity|]. split; [reflexivity|].
      split; [discriminate | intros (? & ? & Hc); discriminate Hc].
    + destruct (c_posix_memalign (libc w) (sys_calls w) alignment bytes)
        as [rc q].
      eexists _, _. split; [reflexivity|]. split; [reflexivity|].
      split; [discriminate | intros (? & ? & Hc); discriminate Hc].
  - eexists _, _. split; [reflexivity|]. split; [reflexivity|].
    split; [discriminate | intros (? & ? & Hc); discriminate Hc].
Qed.

Lemma system_deallocate_call fuel this p bytes alignment c w :
  objects w !! this = Some NewDeleteResource ->
  is_allocation c = true ->
  (build (libc w) = HAVE__ALIGNED_MALLOC
   <-> exists n a, c = SysAlignedMalloc n a) ->
  exists w',
    deallocate (S fuel) this p bytes alignment w = Ret tt w'
    /\ sys_calls w'
       = sys_calls w ++ (if p =? nullptr then [] else [released_by c p]).
Proof.
  intros Hthis Hc Hfam. unfold deallocate, memory_resource.deallocate.
  destruct (Z.eqb_spec p nullptr) as [|Hp].
  { exists w. rewrite app_nil_r. split; reflexivity. }
  cbn [do_deallocate]. rewrite Hthis. unfold new_delete.do_deallocate.
  destruct (Z.eqb_spec p nullptr) as [|_]; [contradiction|].
  cbn [libc log_event].
  destruct (build (libc w)) eqn:Hbuild; eexists; (split; [reflexivity|]); cbn.
  - destruct (proj1 Hfam eq_refl) as (n & a & ->). reflexivity.
  - destruct c; try reflexivity; try discriminate Hc.
    exfalso. assert (H := proj2 Hfam ltac:(eauto)). discriminate H.
  - destruct c; try reflexivity; try discriminate Hc.
    exfalso. assert (H := proj2 Hfam ltac:(eauto)). discriminate H.
Qed.

(** X3.  On the system resource an allocation makes one allocating call of
    the C library, and the deallocation of what it returned makes the one
    call that frees memory of that family ([_aligned_free] after
    [_aligned_malloc], [free] after the others), whatever size and alignment
    the deallocation is given; a null result is not freed. *)
Theorem system_allocation_pairing fuel fuel' this bytes alignment
    bytes' alignment' w :
  objects w !! this = Some NewDeleteResource -> 0 < bytes ->
  exists p w1 c w2,
    allocate (S fuel) this bytes alignment w = Ret p w1
    /\ sys_calls w1 = sys_calls w ++ [c] /\ is_allocation c = true
    /\ deallocate (S fuel') this p bytes' alignment' w1 = Ret tt w2
    /\ sys_calls w2
       = sys_calls w1 ++ (if p =? nullptr then [] else [released_by c p]).
Proof.
  intros Hthis Hb.
  destruct (system_allocate_call fuel this bytes alignment w Hthis Hb)
    as (p & c & Hrun & Hc & Hfam).
  destruct (system_deallocate_call fuel' this p bytes' alignment' c
              (log_sys c (log_event (EvDoAllocate this bytes alignment) w))
              Hthis Hc Hfam) as (w2 & Hrun2 & Hs).
  eexists p, _, c, w2. split; [exact Hrun|].
  split; [reflexivity|]. split; [exact Hc|]. split; [exact Hrun2 | exact Hs].
Qed.

Lemma system_allocation_pairing_witness :
  exists p w1 c w2,
    allocate 1 100 64 16 w_sys = Ret p w1
    /\ sys_calls w1 = sys_calls w_sys ++ [c] /\ is_allocation c = true
    /\ deallocate 1 100 p 1 1 w1 = Ret tt w2
    /\ sys_calls w2
       = sys_calls w1 ++ (if p =? nullptr then [] else [released_by c p]).
Proof.
  apply (system_allocation_pairing 0 0 100 64 16 1 1 w_sys);
    [reflexivity | lia].
Defined.

(** ** The arena *)

Lemma allocate_block_system fuel this m size w :
  objects w !! this = Some (Monotonic m) ->
  objects w !! upstream m = Some NewDeleteResource ->
  size_add sizeof_block size <> 0 ->
  exists b w1,
    allocate (S fuel) (upstream m) (size_add sizeof_block size) alignof_block w
    = Ret b w1
    /\ objects w1 = objects w /\ cells w1 = cells w /\ libc w1 = libc w
    /\ trace w1
       = trace w ++ [EvDoAllocate (upstream m) (size_add sizeof_block size)
                       alignof_block]
    /\ allocate_block (S fuel) this size w
       = if b =? nullptr then Fault
         else Ret {| b_this := b; b_ptr := b + sizeof_block; b_size := size |}
                (set_objects
                   (<[this := Monotonic
                        (set_block_list
                           ({| b_this := b; b_ptr := b + sizeof_block;
                               b_size := size |} :: block_list m) m)]>
                      (objects w1)) w1).
Proof.
  intros Hthis Hup Hreq.
  assert (Hpos : 0 < size_add sizeof_block size).
  { unfold size_add in *. pose proof (Z.mod_pos_bound (sizeof_block + size) (2 ^ 64)).
    lia. }
  destruct (system_allocate_call fuel (upstream m) _ alignof_block w Hup Hpos)
    as (b & c & Hrun & _ & _).
  eexists b, _. split; [exact Hrun|]. repeat split.
  unfold allocate_block, monotonic.allocate_block, bind.
  rewrite (load_eq _ _ _ Hthis), Hrun.
  destruct (b =? nullptr); [reflexivity|].
  erewrite update_eq by exact Hthis. reflexivity.
Qed.

Lemma allocate_block_ret fuel this m size blk w w' :
  objects w !! this = Some (Monotonic m) ->
  objects w !! upstream m = Some NewDeleteResource ->
  blocks_wf m ->
  allocate_block (S fuel) this size w = Ret blk w' ->
  exists m',
    objects w' !! this = Some (Monotonic m')
    /\ m' = set_block_list (blk :: block_list m) m
    /\ b_ptr blk = b_this blk + sizeof_block /\ b_size blk = size
    /\ blocks_wf m'
    /\ (forall r, r <> this -> objects w' !! r = objects w !! r)
    /\ trace w'
       = trace w ++ [EvDoAllocate (upstream m) (size_add sizeof_block size)
                       alignof_block].
Proof.
  intros Hthis Hup Hwf Hrun.
  destruct (Z.eq_dec (size_add sizeof_block size) 0) as [Hz|Hnz].
  { exfalso. revert Hrun. unfold allocate_block, monotonic.allocate_block, bind.
    rewrite (load_eq _ _ _ Hthis). unfold allocate, memory_resource.allocate.
    rewrite Hz. cbn. discriminate. }
  destruct (allocate_block_system fuel this m size w Hthis Hup Hnz)
    as (b & w1 & _ & Ho & _ & _ & Ht & Heq).
  rewrite Heq in Hrun. destruct (Z.eqb_spec b nullptr) as [|Hb]; [discriminate|].
  injection Hrun as <- <-. eexists. cbn [objects set_objects trace].
  split; [apply lookup_insert_eq|]. split; [reflexivity|].
  split; [reflexivity|]. split; [reflexivity|]. split; [|split].
  - constructor; [exact Hb | exact Hwf].
  - intros r Hr. rewrite lookup_insert_ne by congruence. rewrite Ho. reflexivity.
  - exact Ht.
Qed.

(** X4.  Over the system resource, [allocate_block(size)] asks the upstream
    once for [sizeof(block) + size] bytes at [alignof(block)]; when the
    answer is not null it returns the block, linked at the head of
    [block_list] with its payload [sizeof(block)] after the header, and
    changes no other field of the arena and no other resource; the list
    still holds no null block. *)
Theorem allocate_block_links fuel this m size w :
  objects w !! this = Some (Monotonic m) ->
  objects w !! upstream m = Some NewDeleteResource ->
  blocks_wf m ->
  size_add sizeof_block size <> 0 ->
  exists b w1,
    allocate (S fuel) (upstream m) (size_add sizeof_block size) alignof_block w
    = Ret b w1
    /\ (b <> nullptr ->
        exists blk w' m',
          allocate_block (S fuel) this size w = Ret blk w'
          /\ b_this blk = b /\ b_ptr blk = b + sizeof_block
          /\ b_size blk = size
          /\ objects w' !! this = Some (Monotonic m')
          /\ m' = set_block_list (blk :: block_list m) m
          /\ blocks_wf m'
          /\ (forall r, r <> this -> objects w' !! r = objects w !! r)
          /\ trace w'
             = trace w ++ [EvDoAllocate (upstream m)
                             (size_add sizeof_block size) alignof_block]).
Proof.
  intros Hthis Hup Hwf Hnz.
  destruct (allocate_block_system fuel this m size w Hthis Hup Hnz)
    as (b & w1 & Hup_run & _ & _ & _ & _ & Heq).
  exists b, w1. split; [exact Hup_run|]. intros Hb.
  destruct (Z.eqb_spec b nullptr) as [|_]; [contradiction|].
  destruct (allocate_block_ret fuel this m size _ w _ Hthis Hup Hwf Heq)
    as (m' & Hthis' & Hm' & _ & _ & Hwf' & Hframe & Ht).
  eexists _, _, m'. split; [exact Heq|]. cbn [b_this b_ptr b_size].
  repeat split; assumption.
Qed.

Lemma allocate_block_links_witness :
  exists b w1,
    allocate 1 100 (size_add sizeof_block 4096) alignof_block w_arenas
    = Ret b w1
    /\ (b <> nullptr ->
        exists blk w' m',
          allocate_block 1 300 4096 w_arenas = Ret blk w'
          /\ b_this blk = b /\ b_ptr blk = b + sizeof_block
          /\ b_size blk = 4096
          /\ objects w' !! 300 = Some (Monotonic m')
          /\ m' = set_block_list (blk :: []) new_arena
          /\ blocks_wf m'
          /\ (forall r, r <> 300 -> objects w' !! r = objects w_arenas !! r)
          /\ trace w'
             = trace w_arenas ++ [EvDoAllocate 100
                                    (size_add sizeof_block 4096) alignof_block]).
Proof.
  apply (allocate_block_links 0 300 new_arena 4096 w_arenas);
    [reflexivity | reflexivity | constructor | discriminate].
Defined.

Lemma block_round_trip_ret fuel this m size blk w w1 :
  objects w !! this = Some (Monotonic m) ->
  objects w !! upstream m = Some NewDeleteResource ->
  blocks_wf m ->
  allocate_block (S fuel) this size w = Ret blk w1 ->
  exists w2 evs,
    release (S fuel) this w1 = Ret tt w2
    /\ trace w2
       = trace w ++ EvDoAllocate (upstream m) (size_add sizeof_block size)
                      alignof_block :: evs
    /\ calls_on (upstream m) evs
       = EvDoDeallocate (upstream m) (b_this blk)
           (size_add sizeof_block size) alignof_max_align_t
         :: List.map (free_event (upstream m)) (block_list m)
    /\ alignof_block <> alignof_max_align_t.
Proof.
  intros Hthis Hup Hwf Hrun.
  destruct (allocate_block_ret fuel this m size blk w w1 Hthis Hup Hwf Hrun)
    as (m' & Hthis' & -> & _ & Hsize & Hwf' & Hframe & Ht).
  assert (Hne : upstream m <> this) by (intros E; rewrite E in Hup; congruence).
  assert (Hg : grounded (objects w1) 0 (upstream m)).
  { rewrite grounded_unfold, (Hframe _ Hne), Hup. reflexivity. }
  destruct (release_grounded 0 (S fuel) this _ w1 Hthis' Hg ltac:(lia) Hwf')
    as (w2 & evs & Hrel & _ & _ & _ & Ht2 & Hon).
  exists w2, evs. split; [exact Hrel|]. split; [|split].
  - rewrite Ht2, Ht, <- app_assoc. reflexivity.
  - change (upstream (set_block_list (blk :: block_list m) m))
      with (upstream m) in Hon.
    change (block_list (set_block_list (blk :: block_list m) m))
      with (blk :: block_list m) in Hon.
    rewrite Hon. cbn [List.map]. unfold free_event at 1. rewrite Hsize.
    reflexivity.
  - discriminate.
Qed.

(** X5.  A block that [allocate_block] got from the system resource goes
    back to it at [release] with the byte count it was asked with, before
    the older blocks; the block was asked at [alignof(block)] and is given
    back with [alignof(std::max_align_t)]. *)
Theorem block_round_trip fuel this m size b w0 w :
  objects w !! this = Some (Monotonic m) ->
  objects w !! upstream m = Some NewDeleteResource ->
  blocks_wf m ->
  allocate (S fuel) (upstream m) (size_add sizeof_block size) alignof_block w
  = Ret b w0 ->
  b <> nullptr ->
  exists blk w1 w2 evs,
    allocate_block (S fuel) this size w = Ret blk w1
    /\ release (S fuel) this w1 = Ret tt w2
    /\ trace w2
       = trace w ++ EvDoAllocate (upstream m) (size_add sizeof_block size)
                      alignof_block :: evs
    /\ calls_on (upstream m) evs
       = EvDoDeallocate (upstream m) b
           (size_add sizeof_block size) alignof_max_align_t
         :: List.map (free_event (upstream m)) (block_list m)
    /\ alignof_block <> alignof_max_align_t.
Proof.
  intros Hthis Hup Hwf Hup_run Hb.
  assert (Hnz : size_add sizeof_block size <> 0).
  { intros Hz. revert Hup_run. unfold allocate, memory_resource.allocate.
    rewrite Hz. cbn. unfold ret. intros [= <- _]. contradiction. }
  destruct (allocate_block_system fuel this m size w Hthis Hup Hnz)
    as (b' & w0' & Hup_run' & _ & _ & _ & _ & Hrun).
  rewrite Hup_run in Hup_run'. injection Hup_run' as <- <-.
  destruct (Z.eqb_spec b nullptr) as [|_]; [contradiction|].
  destruct (block_round_trip_ret fuel this m size _ w _ Hthis Hup Hwf Hrun)
    as (w2 & evs & H).
  eexists _, _, w2, evs. split; [exact Hrun | exact H].
Qed.

Lemma block_round_trip_witness :
  exists blk w1 w2 evs,
    allocate_block 1 300 4096 w_arenas = Ret blk w1
    /\ release 1 300 w1 = Ret tt w2
    /\ trace w2
       = trace w_arenas
         ++ EvDoAllocate 100 (size_add sizeof_block 4096) alignof_block :: evs
    /\ calls_on 100 evs
       = EvDoDeallocate 100 4096 (size_add sizeof_block 4096)
           alignof_max_align_t
         :: List.map (free_event 100) []
    /\ alignof_block <> alignof_max_align_t.
Proof.
  destruct (returned_inv
              (allocate 1 100 (size_add sizeof_block 4096) alignof_block
                 w_arenas) 4096) as [w0 Hup]; [vm_compute; reflexivity|].
  apply (block_round_trip 0 300 new_arena 4096 4096 w0 w_arenas);
    [reflexivity | reflexivity | constructor | exact Hup | discriminate].
Defined.

(** X6.  An arena that was constructed and never used can be released and
    destroyed whatever its upstream pointer is, null included: [release]
    leaves the world as the constructor made it, and the destructor leaves
    it as it was before the constructor. *)
Theorem unused_arena_release fuel this tid size up w :
  objects w !! this = None ->
  release fuel this (construct_monotonic this tid size up w)
  = Ret tt (construct_monotonic this tid size up w)
  /\ monotonic.destroy (deallocate fuel) this
       (construct_monotonic this tid size up w)
     = Ret tt w.
Proof.
  intros Hfree.
  assert (Hrel : release fuel this (construct_monotonic this tid size up w)
                 = Ret tt (construct_monotonic this tid size up w)).
  { eapply release_empty; [apply lookup_insert_eq | reflexivity | reflexivity]. }
  split; [exact Hrel|].
  unfold monotonic.destroy, bind. fold (release fuel). rewrite Hrel.
  f_equal. destruct w as [o l sc c t]. unfold construct_monotonic, set_objects.
  cbn in *. f_equal. rewrite delete_insert_eq. apply delete_id. exact Hfree.
Qed.

Lemma unused_arena_release_witness :
  release 0 300 (construct_monotonic 300 1 4096 nullptr w_sys)
  = Ret tt (construct_monotonic 300 1 4096 nullptr w_sys)
  /\ monotonic.destroy (deallocate 0) 300
       (construct_monotonic 300 1 4096 nullptr w_sys)
     = Ret tt w_sys.
Proof.
  apply (unused_arena_release 0 300 1 4096 nullptr w_sys). reflexivity.
Defined.

(** ** The allocator *)

(** X7.  [polymorphic_allocator<Tp>::allocate(n)] does not check the
    product: while [n * sizeof(Tp)] fits the size type it asks what
    [allocate_object<Tp>(n)] asks, and where [allocate_object] throws it
    asks the resource for the product reduced modulo 2^64, fewer bytes than
    [n] elements need. *)
Theorem allocate_unchecked fuel a Tp n w :
  1 <= sizeof Tp <= SIZE_MAX -> 0 <= n <= SIZE_MAX ->
  (n * sizeof Tp <= SIZE_MAX ->
     pmr.allocate_n fuel a Tp n w = pmr.allocate_object fuel a Tp n w)
  /\ (SIZE_MAX < n * sizeof Tp ->
      pmr.allocate_object fuel a Tp n w = Throw bad_array_new_length w
      /\ pmr.allocate_n fuel a Tp n w
         = allocate fuel (pmr.resource a) ((n * sizeof Tp) mod 2 ^ 64)
             (alignof Tp) w
      /\ (n * sizeof Tp) mod 2 ^ 64 < n * sizeof Tp).
Proof.
  intros Hs Hn. unfold pmr.allocate_object, pmr.allocate_n, pmr.allocate_bytes.
  rewrite size_overflow_test by lia. split.
  - intros Hfit.
    destruct (Z.ltb_spec SIZE_MAX (n * sizeof Tp)); [lia | reflexivity].
  - intros Hover.
    destruct (Z.ltb_spec SIZE_MAX (n * sizeof Tp)) as [_|]; [|lia].
    split; [reflexivity|]. split; [reflexivity|].
    pose proof (Z.mod_pos_bound (n * sizeof Tp) (2 ^ 64) ltac:(lia)).
    unfold SIZE_MAX in Hover. lia.
Qed.

Lemma allocate_unchecked_witness :
  pmr.allocate_object 1 sys_alloc int_t (2 ^ 62) w_sys
  = Throw bad_array_new_length w_sys
  /\ pmr.allocate_n 1 sys_alloc int_t (2 ^ 62) w_sys
     = allocate 1 (pmr.resource sys_alloc) ((2 ^ 62 * sizeof int_t) mod 2 ^ 64)
         (alignof int_t) w_sys
  /\ (2 ^ 62 * sizeof int_t) mod 2 ^ 64 < 2 ^ 62 * sizeof int_t.
Proof.
  apply (allocate_unchecked 1 sys_alloc int_t (2 ^ 62) w_sys).
  - vm_compute. split; discriminate.
  - vm_compute. split; discriminate.
  - vm_compute. reflexivity.
Defined.

Lemma sys_serves : serves 1 sys_alloc R_sys.
Proof.
  split.
  - exact R_sys_allocate.
  - exact R_sys_deallocate.
  - exact R_sys_cells.
Qed.

(** X8.  Over a resource that serves regions, [new_object<U>(v)] returns a
    non-null address that holds [v], and [delete_object] of it ends that
    value and gives the storage back: the resource sees one allocation of
    [sizeof(U)] bytes at [alignof(U)] and one deallocation of the same
    address, size and alignment, and its live regions are as before. *)
Theorem new_delete_object_round_trip fuel a R U v live w :
  serves fuel a R ->
  1 <= sizeof U <= SIZE_MAX -> 0 < alignof U ->
  R live w ->
  exists p w1 w2,
    pmr.new_object fuel a U v w = Ret p w1
    /\ p <> nullptr
    /\ cells w1 = <[p := v]> (cells w)
    /\ pmr.delete_object fuel a U p w1 = Ret tt w2
    /\ cells w2 = delete p (cells w)
    /\ R live w2
    /\ calls_on (pmr.resource a) (trace w2)
       = calls_on (pmr.resource a) (trace w)
         ++ [EvDoAllocate (pmr.resource a) (sizeof U) (alignof U);
             EvDoDeallocate (pmr.resource a) p (sizeof U) (alignof U)].
Proof.
  intros [Halloc Hdealloc Hcells] Hs Ha HR.
  assert (Hone : size_mul 1 (sizeof U) = sizeof U).
  { unfold size_mul. rewrite Z.mul_1_l. apply Z.mod_small.
    unfold SIZE_MAX in Hs. lia. }
  assert (Hchk : (SIZE_MAX / sizeof U <? 1) = false).
  { rewrite size_overflow_test by lia. apply Z.ltb_ge. lia. }
  destruct (Halloc live w (sizeof U) (alignof U) HR ltac:(lia) Ha)
    as (p & w0 & Hrun & Hp & Hc0 & HR0 & _ & Ht0).
  assert (Hnew : pmr.new_object fuel a U v w
                 = Ret p (set_cells (<[p := v]> (cells w0)) w0)).
  { unfold pmr.new_object, bind, pmr.allocate_object. rewrite Hchk, Hone.
    unfold pmr.allocate_bytes. rewrite Hrun. unfold pmr.construct.
    destruct (Z.eqb_spec p nullptr) as [E|_]; [unfold nullptr in E; lia|].
    reflexivity. }
  destruct (Hdealloc [] live
              (set_cells (delete p (<[p := v]> (cells w0)))
                 (set_cells (<[p := v]> (cells w0)) w0))
              p (sizeof U) (alignof U))
    as (w2 & Hrun2 & Hc2 & HR2 & Ht2).
  { apply Hcells, Hcells. exact HR0. }
  { unfold nullptr. lia. }
  eexists p, _, w2. split; [exact Hnew|].
  split; [unfold nullptr; lia|]. split; [cbn; rewrite Hc0; reflexivity|].
  split; [|split; [|split]].
  - unfold pmr.delete_object, bind, pmr.destroy. cbn [cells set_cells].
    rewrite lookup_insert_eq. unfold pmr.deallocate_object, pmr.deallocate_bytes.
    rewrite Hone. exact Hrun2.
  - rewrite Hc2. cbn. rewrite delete_insert_eq, Hc0. reflexivity.
  - exact HR2.
  - rewrite Ht2. cbn [trace set_cells]. rewrite Ht0, <- app_assoc. reflexivity.
Qed.

Lemma new_delete_object_round_trip_witness :
  exists p w1 w2,
    pmr.new_object 1 sys_alloc int_t 42 w_sys = Ret p w1
    /\ p <> nullptr
    /\ cells w1 = <[p := 42]> (cells w_sys)
    /\ pmr.delete_object 1 sys_alloc int_t p w1 = Ret tt w2
    /\ cells w2 = delete p (cells w_sys)
    /\ R_sys [] w2
    /\ calls_on (pmr.resource sys_alloc) (trace w2)
       = calls_on (pmr.resource sys_alloc) (trace w_sys)
         ++ [EvDoAllocate (pmr.resource sys_alloc) (sizeof int_t) (alignof int_t);
             EvDoDeallocate (pmr.resource sys_alloc) p (sizeof int_t)
               (alignof int_t)].
Proof.
  apply (new_delete_object_round_trip 1 sys_alloc R_sys int_t 42 [] w_sys).
  - exact sys_serves.
  - vm_compute. split; discriminate.
  - reflexivity.
  - exact R_sys_initial.
Defined.

(** ** Further members of the vector *)

Section vector_members.
Variable fuel : nat.
Variable Tp : ctype.
Variable a : polymorphic_allocator.
Variable R : list (addr * Z) -> world -> Prop.

Hypothesis Tp_size : 1 <= sizeof Tp.
Hypothesis Tp_align : 0 < alignof Tp.
Hypothesis HR : serves fuel a R.

Lemma at_apart p i j : i <> j -> vec.at_ Tp p i <> vec.at_ Tp p j.
Proof. unfold vec.at_. nia. Qed.

Lemma at_pos p i : 0 < p -> 0 <= i -> vec.at_ Tp p i <> nullptr.
Proof. unfold vec.at_, nullptr. nia. Qed.

Lemma destroy_loop_spec p : forall (ys : list Z) i w,
  (forall (j : nat) y, ys !! j = Some y ->
     cells w !! vec.at_ Tp p (i + Z.of_nat j) = Some y) ->
  exists c',
    vec.destroy_loop Tp p i (length ys) w = Ret tt (set_cells c' w)
    /\ (forall j : nat, (j < length ys)%nat ->
          c' !! vec.at_ Tp p (i + Z.of_nat j) = None)
    /\ (forall q,
          (forall j : nat, (j < length ys)%nat ->
             q <> vec.at_ Tp p (i + Z.of_nat j)) ->
          c' !! q = cells w !! q).
Proof.
  induction ys as [|y ys IH]; intros i w Hold.
  - exists (cells w). destruct w. split; [reflexivity|].
    split; [cbn; intros; lia | reflexivity].
  - cbn [length vec.destroy_loop]. unfold bind at 1. unfold pmr.destroy.
    pose proof (Hold O y eq_refl) as H0. rewrite Z.add_0_r in H0. rewrite H0.
    set (c1 := delete (vec.at_ Tp p i) (cells w)).
    destruct (IH (i + 1) (set_cells c1 w)) as (c' & Hrun & Hgone & Hframe).
    { intros j y' Hj. cbn [cells set_cells]. unfold c1.
      replace (i + 1 + Z.of_nat j) with (i + Z.of_nat (S j)) by lia.
      rewrite lookup_delete_ne by (apply at_apart; lia).
      apply Hold. exact Hj. }
    exists c'. rewrite Hrun. split; [reflexivity|].
    cbn [cells set_cells] in Hframe. split.
    + intros [|j] Hj.
      * rewrite Z.add_0_r, Hframe; [apply lookup_delete_eq|].
        intros k _. apply at_apart. lia.
      * replace (i + Z.of_nat (S j)) with (i + 1 + Z.of_nat j) by lia.
        apply Hgone. cbn in Hj. lia.
    + intros q Hq. rewrite Hframe.
      * unfold c1. apply lookup_delete_ne.
        specialize (Hq O ltac:(cbn; lia)). rewrite Z.add_0_r in Hq. congruence.
      * intros k Hk.
        replace (i + 1 + Z.of_nat k) with (i + Z.of_nat (S k)) by lia.
        apply Hq. cbn. lia.
Qed.

Lemma fill_loop_spec p value : forall (n : nat) i w,
  0 < p -> 0 <= i ->
  exists c',
    vec.fill_loop Tp p i n value w = Ret tt (set_cells c' w)
    /\ (forall j : nat, (j < n)%nat ->
          c' !! vec.at_ Tp p (i + Z.of_nat j) = Some value)
    /\ (forall q,
          (forall j : nat, (j < n)%nat -> q <> vec.at_ Tp p (i + Z.of_nat j)) ->
          c' !! q = cells w !! q).
Proof.
  induction n as [|n IH]; intros i w Hp Hi.
  - exists (cells w). destruct w. split; [reflexivity|].
    split; [intros; lia | reflexivity].
  - cbn [vec.fill_loop]. unfold bind at 1. unfold pmr.construct.
    destruct (Z.eqb_spec (vec.at_ Tp p i) nullptr) as [E|_].
    { exfalso. exact (at_pos p i Hp Hi E). }
    set (c1 := <[vec.at_ Tp p i := value]> (cells w)).
    destruct (IH (i + 1) (set_cells c1 w) Hp ltac:(lia))
      as (c' & Hrun & Hnew & Hframe).
    exists c'. rewrite Hrun. split; [reflexivity|].
    cbn [cells set_cells] in Hframe. split.
    + intros [|j] Hj.
      * rewrite Z.add_0_r, Hframe; [apply lookup_insert_eq|].
        intros k _. apply at_apart. lia.
      * replace (i + Z.of_nat (S j)) with (i + 1 + Z.of_nat j) by lia.
        apply Hnew. lia.
    + intros q Hq. rewrite Hframe.
      * unfold c1. apply lookup_insert_ne.
        specialize (Hq O ltac:(lia)). rewrite Z.add_0_r in Hq. congruence.
      * intros k Hk.
        replace (i + 1 + Z.of_nat k) with (i + Z.of_nat (S k)) by lia.
        apply Hq. lia.
Qed.

Lemma copy_loop_spec src dst : forall (ys : list Z) i w,
  0 <= i -> 0 < dst ->
  (forall (j : nat) y, ys !! j = Some y ->
     cells w !! vec.at_ Tp src (i + Z.of_nat j) = Some y) ->
  (forall j j' : nat, (j < length ys)%nat -> (j' < length ys)%nat ->
     vec.at_ Tp dst (i + Z.of_nat j) <> vec.at_ Tp src (i + Z.of_nat j')) ->
  exists c',
    vec.copy_loop Tp src dst i (length ys) w = Ret tt (set_cells c' w)
    /\ (forall (j : nat) y, ys !! j = Some y ->
          c' !! vec.at_ Tp dst (i + Z.of_nat j) = Some y)
    /\ (forall q,
          (forall j : nat, (j < length ys)%nat ->
             q <> vec.at_ Tp dst (i + Z.of_nat j)) ->
          c' !! q = cells w !! q).
Proof.
  induction ys as [|y ys IH]; intros i w Hi Hdst Hold Hapart.
  - exists (cells w). destruct w. split; [reflexivity|].
    split; [|reflexivity]. intros j y' Hj. rewrite lookup_nil in Hj. discriminate.
  - cbn [length vec.copy_loop]. unfold bind at 1. unfold vec.read.
    pose proof (Hold O y eq_refl) as H0. rewrite Z.add_0_r in H0. rewrite H0.
    unfold bind at 1. unfold pmr.construct.
    destruct (Z.eqb_spec (vec.at_ Tp dst i) nullptr) as [E|_].
    { exfalso. exact (at_pos dst i Hdst Hi E). }
    set (c1 := <[vec.at_ Tp dst i := y]> (cells w)).
    destruct (IH (i + 1) (set_cells c1 w)) as (c' & Hrun & Hnew & Hframe).
    + lia.
    + exact Hdst.
    + intros j y' Hj. cbn [cells set_cells]. unfold c1.
      replace (i + 1 + Z.of_nat j) with (i + Z.of_nat (S j)) by lia.
      rewrite lookup_insert_ne.
      * apply Hold. exact Hj.
      * pose proof (Hapart O (S j) ltac:(cbn; lia)
                      ltac:(cbn; apply lookup_lt_Some in Hj; lia)) as H.
        rewrite Z.add_0_r in H. exact H.
    + intros j j' Hj Hj'.
      replace (i + 1 + Z.of_nat j) with (i + Z.of_nat (S j)) by lia.
      replace (i + 1 + Z.of_nat j') with (i + Z.of_nat (S j')) by lia.
      apply Hapart; cbn; lia.
    + exists c'. rewrite Hrun. split; [reflexivity|].
      cbn [cells set_cells] in Hframe. split.
      * intros [|j] y' Hj.
        -- cbn in Hj. injection Hj as <-. rewrite Z.add_0_r, Hframe;
             [apply lookup_insert_eq|].
           intros k _. apply at_apart. lia.
        -- replace (i + Z.of_nat (S j)) with (i + 1 + Z.of_nat j) by lia.
           apply Hnew. exact Hj.
      * intros q Hq. rewrite Hframe.
        -- unfold c1. apply lookup_insert_ne.
           specialize (Hq O ltac:(cbn; lia)). rewrite Z.add_0_r in Hq. congruence.
        -- intros k Hk.
           replace (i + 1 + Z.of_nat k) with (i + Z.of_nat (S k)) by lia.
           apply Hq. cbn. lia.
Qed.

(** X9.  [at(index)] throws [std::out_of_range] exactly when
    [index >= size()] and otherwise gives the element at that index;
    [front()] and [back()] of a vector that is not empty give its first and
    its last element. *)
Theorem at_bounds v xs index w :
  nStored v = Z.of_nat (length xs) -> nStored v <= SIZE_MAX ->
  stores Tp (cells w) (ptr v) xs ->
  0 <= index ->
  vec.at_index Tp v index w
  = match xs !! Z.to_nat index with
    | Some x => Value x
    | None => OutOfRange
    end
  /\ (forall x, head xs = Some x -> vec.front Tp v w = Value x)
  /\ (forall x, last xs = Some x -> vec.back Tp v w = Value x).
Proof.
  intros Hlen Hmax Hcells Hi. split; [|split].
  - unfold vec.at_index. rewrite Hlen.
    destruct (Z.leb_spec (Z.of_nat (length xs)) index) as [Hout|Hin].
    + rewrite lookup_ge_None_2 by lia. reflexivity.
    + destruct (lookup_lt_is_Some_2 xs (Z.to_nat index) ltac:(lia)) as [x Hx].
      rewrite Hx. unfold vec.subscript.
      rewrite <- (Z2Nat.id index Hi), (Hcells _ _ Hx). reflexivity.
  - intros x Hx. unfold vec.front, vec.subscript.
    assert (H : cells w !! vec.at_ Tp (ptr v) 0 = Some x).
    { apply (Hcells O x). destruct xs; [discriminate | exact Hx]. }
    rewrite H. reflexivity.
  - intros x Hx. rewrite last_lookup in Hx. unfold vec.back, vec.subscript.
    assert (Hpos : (0 < length xs)%nat).
    { apply lookup_lt_Some in Hx. lia. }
    assert (Hidx : size_sub (nStored v) 1 = Z.of_nat (pred (length xs))).
    { unfold size_sub. rewrite Z.mod_small; [lia|]. unfold SIZE_MAX in Hmax. lia. }
    rewrite Hidx, (Hcells _ _ Hx). reflexivity.
Qed.

Lemma clear_spec others v xs w :
  vec_inv Tp a R others v xs w ->
  exists v' w',
    vec.clear Tp v w = Ret v' w'
    /\ vec_inv Tp a R others v' [] w'
    /\ nStored v' = 0 /\ nAlloc v' = nAlloc v /\ ptr v' = ptr v
    /\ trace w' = trace w
    /\ (forall j : nat, (j < length xs)%nat ->
          cells w' !! vec.at_ Tp (ptr v) (Z.of_nat j) = None).
Proof.
  intros [Ha Hlen Hcap Hnull Hptr HRw Hcells].
  destruct (destroy_loop_spec (ptr v) xs 0 w) as (c' & Hrun & Hgone & _).
  { intros j y Hj. rewrite Z.add_0_l. apply Hcells, Hj. }
  unfold vec.clear, bind. rewrite Hlen, Nat2Z.id, Hrun. unfold ret.
  eexists _, _. split; [reflexivity|]. split.
  - split; cbn; try assumption; try lia.
    + apply (serves_cells _ _ _ HR). exact HRw.
    + intros j y Hj. rewrite lookup_nil in Hj. discriminate.
  - repeat split. intros j Hj. specialize (Hgone j Hj).
    rewrite Z.add_0_l in Hgone. exact Hgone.
Qed.

(** An append to a vector that has room makes no call to the resource and
    keeps storage and capacity. *)
Lemma push_back_room others v xs x w :
  vec_inv Tp a R others v xs w -> nStored v < nAlloc v ->
  nStored v < SIZE_MAX ->
  exists v' w',
    vec.push_back fuel Tp v x w = Ret v' w'
    /\ vec_inv Tp a R others v' (xs ++ [x]) w'
    /\ nAlloc v' = nAlloc v /\ ptr v' = ptr v
    /\ nStored v' = nStored v + 1
    /\ trace w' = trace w.
Proof.
  intros [Ha Hlen Hcap Hnull Hptr HRw Hcells] Hroom Hmax.
  unfold vec.push_back. unfold bind at 1.
  destruct (Z.eqb_spec (nAlloc v) (nStored v)) as [|_]; [lia|].
  unfold ret at 1. unfold bind at 1. unfold pmr.construct.
  assert (Hp : 0 < ptr v) by (apply Hptr; lia).
  destruct (Z.eqb_spec (vec.at_ Tp (ptr v) (nStored v)) nullptr) as [E|_].
  { exfalso. refine (at_pos _ _ Hp _ E). lia. }
  unfold ret, size_add. rewrite Z.mod_small by (unfold SIZE_MAX in *; lia).
  eexists _, _. split; [reflexivity|]. split; [|repeat split].
  split; cbn; try assumption.
  - rewrite length_app. cbn. lia.
  - lia.
  - apply (serves_cells _ _ _ HR). exact HRw.
  - intros j y Hj. destruct (lookup_app_Some xs [x] j y) as [H _].
    destruct (H Hj) as [Hin | [Hge Hlast]].
    + rewrite lookup_insert_ne.
      * apply Hcells, Hin.
      * apply at_apart. apply lookup_lt_Some in Hin. lia.
    + assert (j = length xs).
      { apply lookup_lt_Some in Hlast. cbn in Hlast. lia. }
      subst j. rewrite Nat.sub_diag in Hlast. cbn in Hlast.
      injection Hlast as <-. rewrite <- Hlen. apply lookup_insert_eq.
Qed.

(** X10.  [clear()] ends every element and sets the size to 0 without a
    call to the resource: the storage and the capacity stay, so that the
    next [push_back] makes no call to the resource either. *)
Theorem clear_keeps_storage others v xs x w :
  vec_inv Tp a R others v xs w -> 0 < nAlloc v -> nAlloc v <= SIZE_MAX ->
  exists v' w' v2 w2,
    vec.clear Tp v w = Ret v' w'
    /\ nStored v' = 0 /\ nAlloc v' = nAlloc v /\ ptr v' = ptr v
    /\ trace w' = trace w
    /\ (forall j : nat, (j < length xs)%nat ->
          cells w' !! vec.at_ Tp (ptr v) (Z.of_nat j) = None)
    /\ vec.push_back fuel Tp v' x w' = Ret v2 w2
    /\ vec.elements Tp v2 w2 = [Some x]
    /\ ptr v2 = ptr v /\ nAlloc v2 = nAlloc v
    /\ trace w2 = trace w.
Proof.
  intros Hinv Hcap Hmax.
  destruct (clear_spec others v xs w Hinv)
    as (v' & w' & Hclear & Hinv' & Hs & Hn & Hp & Ht & Hgone).
  destruct (push_back_room others v' [] x w' Hinv' ltac:(lia) ltac:(lia))
    as (v2 & w2 & Hpush & Hinv2 & Hn2 & Hp2 & _ & Ht2).
  exists v', w', v2, w2. split; [exact Hclear|].
  split; [exact Hs|]. split; [exact Hn|]. split; [exact Hp|].
  split; [exact Ht|]. split; [exact Hgone|]. split; [exact Hpush|].
  split; [exact (vec_inv_elements _ _ _ _ _ _ _ Hinv2)|].
  repeat split; congruence.
Qed.

Lemma pop_back_spec others v xs x w :
  vec_inv Tp a R others v (xs ++ [x]) w -> nStored v <= SIZE_MAX ->
  exists v' w',
    vec.pop_back Tp v w = Ret v' w'
    /\ vec_inv Tp a R others v' xs w'
    /\ nAlloc v' = nAlloc v /\ ptr v' = ptr v
    /\ trace w' = trace w
    /\ cells w' !! vec.at_ Tp (ptr v) (Z.of_nat (length xs)) = None.
Proof.
  intros [Ha Hlen Hcap Hnull Hptr HRw Hcells] Hmax.
  rewrite length_app in Hlen. cbn in Hlen.
  assert (Hidx : nStored v - 1 = Z.of_nat (length xs)) by lia.
  assert (Hlast : cells w !! vec.at_ Tp (ptr v) (Z.of_nat (length xs)) = Some x).
  { apply Hcells. rewrite lookup_app_r by lia. rewrite Nat.sub_diag. reflexivity. }
  unfold vec.pop_back, bind, pmr.destroy. rewrite Hidx, Hlast.
  unfold ret, size_sub. rewrite Z.mod_small by (unfold SIZE_MAX in Hmax; lia).
  eexists _, _. split; [reflexivity|]. split; [|repeat split].
  - split; cbn; try assumption; try lia.
    + apply (serves_cells _ _ _ HR). exact HRw.
    + intros j y Hj. rewrite lookup_delete_ne.
      * apply Hcells. apply lookup_app_l_Some. exact Hj.
      * apply at_apart. apply lookup_lt_Some in Hj. lia.
  - cbn. apply lookup_delete_eq.
Qed.

(** X11.  [pop_back()] undoes [push_back(x)]: after the two the vector
    holds the values it held, with the capacity the append left it, and
    [pop_back] makes no call to the resource. *)
Theorem push_back_pop_back others v xs x w :
  vec_inv Tp a R others v xs w ->
  (nAlloc v = nStored v -> next_capacity (nAlloc v) * sizeof Tp <= SIZE_MAX) ->
  nStored v < SIZE_MAX ->
  exists v1 w1 v2 w2,
    vec.push_back fuel Tp v x w = Ret v1 w1
    /\ vec.pop_back Tp v1 w1 = Ret v2 w2
    /\ vec_inv Tp a R others v2 xs w2
    /\ vec.elements Tp v2 w2 = List.map Some xs
    /\ nStored v2 = nStored v
    /\ nAlloc v2 = nAlloc v1 /\ ptr v2 = ptr v1
    /\ trace w2 = trace w1.
Proof.
  intros Hinv Hgrow Hmax.
  destruct (push_back_spec fuel Tp a R Tp_size Tp_align
              (serves_allocate _ _ _ HR) (serves_deallocate _ _ _ HR)
              (serves_cells _ _ _ HR) others v xs x w Hinv Hgrow Hmax)
    as (v1 & w1 & Hpush & Hinv1 & _ & Hs1 & _).
  destruct (pop_back_spec others v1 xs x w1 Hinv1 ltac:(lia))
    as (v2 & w2 & Hpop & Hinv2 & Hn2 & Hp2 & Ht2 & _).
  exists v1, w1, v2, w2. split; [exact Hpush|]. split; [exact Hpop|].
  split; [exact Hinv2|].
  split; [exact (vec_inv_elements _ _ _ _ _ _ _ Hinv2)|].
  split; [destruct Hinv, Hinv2; lia|]. repeat split; assumption.
Qed.

Lemma max_size_test n : (vec.max_size Tp <? n) = (SIZE_MAX <? n * sizeof Tp).
Proof. unfold vec.max_size. apply size_overflow_test. exact Tp_size. Qed.

(** X12.  [reserve(n)] within the capacity changes nothing; beyond the
    capacity and beyond [max_size()] it throws [std::bad_array_new_length]
    with the vector and the world as they were; beyond the capacity and
    within [max_size()] it returns with capacity exactly [n] and the same
    elements in the same order. *)
Theorem reserve_cases others v xs n w :
  vec_inv Tp a R others v xs w ->
  (n <= nAlloc v -> vec.reserve fuel Tp v n w = Ret v w)
  /\ (nAlloc v < n -> vec.max_size Tp < n ->
      vec.reserve fuel Tp v n w = Throw bad_array_new_length w)
  /\ (nAlloc v < n -> n <= vec.max_size Tp ->
      exists v' w',
        vec.reserve fuel Tp v n w = Ret v' w'
        /\ vec_inv Tp a R others v' xs w'
        /\ nAlloc v' = n /\ nStored v' = nStored v
        /\ vec.elements Tp v' w' = List.map Some xs).
Proof.
  intros Hinv. split; [|split].
  - intros Hle. unfold vec.reserve.
    destruct (Z.leb_spec n (nAlloc v)); [reflexivity | lia].
  - intros Hlt Hbig. unfold vec.reserve.
    destruct (Z.leb_spec n (nAlloc v)); [lia|].
    unfold bind, pmr.allocate_object. fold (vec.max_size Tp).
    destruct (Z.ltb_spec (vec.max_size Tp) n); [reflexivity | lia].
  - intros Hlt Hfit.
    assert (Hmax : n * sizeof Tp <= SIZE_MAX).
    { pose proof (max_size_test n) as H.
      destruct (Z.ltb_spec (vec.max_size Tp) n); [lia|].
      destruct (Z.ltb_spec SIZE_MAX (n * sizeof Tp)); [discriminate | lia]. }
    destruct (reserve_spec fuel Tp a R Tp_size Tp_align
                (serves_allocate _ _ _ HR) (serves_deallocate _ _ _ HR)
                (serves_cells _ _ _ HR) others v xs n w Hinv Hlt Hmax)
      as (v' & w' & Hrun & Hinv' & Hn & _ & _).
    exists v', w'. split; [exact Hrun|]. split; [exact Hinv'|].
    split; [exact Hn|]. split; [destruct Hinv, Hinv'; lia|].
    exact (vec_inv_elements _ _ _ _ _ _ _ Hinv').
Qed.


(** X14.  [vector(count, value, alloc)] holds [count] copies of [value] in
    storage for exactly [count] elements, taken in one allocation; for
    [count == 0] it makes no call to the resource. *)
Theorem construct_fill_spec others count value w :
  R others w -> 0 <= count -> count * sizeof Tp <= SIZE_MAX ->
  exists v w',
    vec.construct_fill fuel Tp a count value w = Ret v w'
    /\ vec_inv Tp a R others v (replicate (Z.to_nat count) value) w'
    /\ vec.elements Tp v w'
       = List.map Some (replicate (Z.to_nat count) value)
    /\ nAlloc v = count
    /\ calls_on (pmr.resource a) (trace w')
       = calls_on (pmr.resource a) (trace w)
         ++ (if count =? 0 then []
             else [EvDoAllocate (pmr.resource a) (count * sizeof Tp)
                     (alignof Tp)]).
Proof.
  intros HRw Hcount Hmax.
  assert (Hstep : exists v1 w1,
    vec.reserve fuel Tp (vec.empty a) count w = Ret v1 w1
    /\ vec_inv Tp a R others v1 [] w1 /\ nAlloc v1 = count
    /\ calls_on (pmr.resource a) (trace w1)
       = calls_on (pmr.resource a) (trace w)
         ++ (if count =? 0 then []
             else [EvDoAllocate (pmr.resource a) (count * sizeof Tp)
                     (alignof Tp)])).
  { destruct (Z.eqb_spec count 0) as [->|Hnz].
    - exists (vec.empty a), w. rewrite app_nil_r.
      split; [reflexivity|]. split; [apply vec_inv_empty; exact HRw|].
      split; reflexivity.
    - destruct (reserve_spec fuel Tp a R Tp_size Tp_align
                  (serves_allocate _ _ _ HR) (serves_deallocate _ _ _ HR)
                  (serves_cells _ _ _ HR) others (vec.empty a) [] count w
                  (vec_inv_empty Tp a R others w HRw))
        as (v1 & w1 & Hrun & Hinv1 & Hn1 & _ & Ht1); [cbn; lia | exact Hmax |].
      exists v1, w1. split; [exact Hrun|]. split; [exact Hinv1|].
      split; [exact Hn1 | exact Ht1]. }
  destruct Hstep as (v1 & w1 & Hrun & [Ha _ _ Hnull Hptr HR1 _] & Hn1 & Ht1).
  unfold vec.construct_fill. unfold bind at 1. rewrite Hrun.
  assert (Hfill : exists c',
            vec.fill_loop Tp (ptr v1) 0 (Z.to_nat count) value w1
            = Ret tt (set_cells c' w1)
            /\ (forall j : nat, (j < Z.to_nat count)%nat ->
                  c' !! vec.at_ Tp (ptr v1) (Z.of_nat j) = Some value)).
  { destruct (Z.eqb_spec count 0) as [->|Hnz].
    - exists (cells w1). destruct w1. split; [reflexivity|]. cbn. intros; lia.
    - destruct (fill_loop_spec (ptr v1) value (Z.to_nat count) 0 w1)
        as (c' & Hf & Hnew & _); [apply Hptr; lia | lia |].
      exists c'. split; [exact Hf|]. intros j Hj. specialize (Hnew j Hj).
      rewrite Z.add_0_l in Hnew. exact Hnew. }
  destruct Hfill as (c' & Hf & Hnew). unfold bind. rewrite Hf. unfold ret.
  assert (Hinv : vec_inv Tp a R others (set_nStored count v1)
                   (replicate (Z.to_nat count) value) (set_cells c' w1)).
  { split; cbn; try assumption.
    - rewrite length_replicate. lia.
    - lia.
    - apply (serves_cells _ _ _ HR). exact HR1.
    - intros j y Hj. apply lookup_replicate in Hj as [-> Hj]. apply Hnew, Hj. }
  eexists _, _. split; [reflexivity|]. split; [exact Hinv|].
  split; [exact (vec_inv_elements _ _ _ _ _ _ _ Hinv)|].
  split; [exact Hn1 | exact Ht1].
Qed.

Lemma stores_elements v xs w :
  nStored v = Z.of_nat (length xs) -> stores Tp (cells w) (ptr v) xs ->
  vec.elements Tp v w = List.map Some xs.
Proof.
  intros Hlen Hcells. unfold vec.elements.
  rewrite Hlen, Nat2Z.id. apply map_seq_lookup.
  intros i x Hi. cbn. apply Hcells, Hi.
Qed.

(** X15.  The copy constructor copies the elements in order into storage
    for exactly [size()] elements of the same resource and leaves the source
    as it was; the copy takes over the capacity count of the source, and
    for an empty source it allocates nothing and holds a null pointer. *)
Theorem copy_construct_spec others other xs w :
  vec_inv Tp a R others other xs w ->
  nStored other * sizeof Tp <= SIZE_MAX ->
  exists v w',
    vec.copy_construct fuel Tp other w = Ret v w'
    /\ vec.elements Tp v w' = List.map Some xs
    /\ vec.elements Tp other w' = List.map Some xs
    /\ nStored v = nStored other /\ nAlloc v = nAlloc other
    /\ (nStored other = 0 -> ptr v = nullptr)
    /\ calls_on (pmr.resource a) (trace w')
       = calls_on (pmr.resource a) (trace w)
         ++ (if nStored other =? 0 then []
             else [EvDoAllocate (pmr.resource a)
                     (nStored other * sizeof Tp) (alignof Tp)]).
Proof.
  intros [Ha Hlen Hcap Hnull Hptr HRw Hcells] Hmax.
  unfold vec.copy_construct.
  destruct (Z.eqb_spec (nStored other) 0) as [H0|H0].
  - assert (xs = []) by (destruct xs; [reflexivity | cbn in Hlen; lia]). subst xs.
    eexists _, w. split; [reflexivity|].
    unfold vec.elements. cbn. rewrite H0, app_nil_r. repeat split.
  - assert (Hpos : 0 < nStored other) by lia.
    unfold bind at 1. unfold pmr.allocate_object.
    rewrite size_overflow_test by lia.
    destruct (Z.ltb_spec SIZE_MAX (nStored other * sizeof Tp)) as [|_]; [lia|].
    unfold pmr.allocate_bytes, size_mul.
    rewrite Z.mod_small by (unfold SIZE_MAX in Hmax; nia). rewrite Ha.
    destruct (serves_allocate _ _ _ HR _ w (nStored other * sizeof Tp)
                (alignof Tp) HRw ltac:(nia) Tp_align)
      as (p & w1 & Hrun & Hp & Hc1 & HR1 & Hfresh & Ht1).
    rewrite Hrun. unfold bind at 1.
    replace (Z.to_nat (nStored other)) with (length xs) by lia.
    destruct (copy_loop_spec (ptr other) p xs 0 w1) as (c' & Hcopy & Hnew & Hframe).
    + lia.
    + exact Hp.
    + intros j y Hj. rewrite Hc1, Z.add_0_l. apply Hcells, Hj.
    + intros j j' Hj Hj'. unfold region in Hfresh.
      destruct (Z.eqb_spec (nAlloc other) 0) as [Hz|Hz]; [lia|].
      apply Forall_app in Hfresh as [Hfresh _].
      apply Forall_cons in Hfresh as [Hfresh _]. cbn in Hfresh.
      apply (region_apart Tp Tp_size p (nStored other) (ptr other) (nAlloc other));
        [exact Hfresh | lia | lia].
    + rewrite Hcopy. unfold ret. eexists _, _. split; [reflexivity|].
      split; [|split; [|split; [reflexivity|split; [reflexivity|split]]]].
      * apply stores_elements; cbn; [lia|].
        intros j y Hj. specialize (Hnew j y Hj). rewrite Z.add_0_l in Hnew.
        exact Hnew.
      * apply stores_elements; cbn; [exact Hlen|].
        intros j y Hj. rewrite Hframe, Hc1; [apply Hcells, Hj|].
        intros k Hk E. unfold region in Hfresh.
        destruct (Z.eqb_spec (nAlloc other) 0) as [Hz|Hz]; [lia|].
        apply Forall_app in Hfresh as [Hfresh _].
        apply Forall_cons in Hfresh as [Hfresh _]. cbn in Hfresh.
        apply lookup_lt_Some in Hj.
        refine (region_apart Tp Tp_size p (nStored other) (ptr other)
                  (nAlloc other) k j _ _ _ _);
          [exact Hfresh | lia | lia |].
        rewrite !Z.add_0_l. symmetry. exact E.
      * intros Hz. contradiction.
      * destruct (Z.eqb_spec (nStored other) 0) as [|_]; [contradiction|].
        exact Ht1.
Qed.

(** [reserve(n)] when [n] elements fit the size type: the same elements,
    capacity the larger of the two. *)
Lemma reserve_max others v xs n w :
  vec_inv Tp a R others v xs w -> n * sizeof Tp <= SIZE_MAX ->
  exists v' w',
    vec.reserve fuel Tp v n w = Ret v' w'
    /\ vec_inv Tp a R others v' xs w'
    /\ nAlloc v' = Z.max (nAlloc v) n
    /\ calls_on (pmr.resource a) (trace w')
       = calls_on (pmr.resource a) (trace w)
         ++ (if n <=? nAlloc v then []
             else EvDoAllocate (pmr.resource a) (n * sizeof Tp) (alignof Tp)
                  :: (if nAlloc v =? 0 then []
                      else [EvDoDeallocate (pmr.resource a) (ptr v)
                              (nAlloc v * sizeof Tp) (alignof Tp)])).
Proof.
  intros Hinv Hmax. destruct (Z.leb_spec n (nAlloc v)) as [Hle|Hlt].
  - exists v, w. split; [|split; [exact Hinv | split; [lia|]]].
    + unfold vec.reserve.
      destruct (Z.leb_spec n (nAlloc v)); [reflexivity | lia].
    + rewrite app_nil_r. reflexivity.
  - destruct (reserve_spec fuel Tp a R Tp_size Tp_align
                (serves_allocate _ _ _ HR) (serves_deallocate _ _ _ HR)
                (serves_cells _ _ _ HR) others v xs n w Hinv Hlt Hmax)
      as (v' & w' & Hrun & Hinv' & Hn & _ & Ht).
    exists v', w'. split; [exact Hrun|]. split; [exact Hinv'|].
    split; [lia | exact Ht].
Qed.

(** X16.  [resize(count)] keeps the first [count] elements, or appends
    value-initialised ones up to [count]; shrinking a vector that holds
    elements to 0 gives its storage back and leaves capacity 0 and a null
    pointer, any other shrinking makes no call to the resource and keeps
    the storage. *)
Theorem resize_spec others v xs count w :
  vec_inv Tp a R others v xs w ->
  0 <= count -> count * sizeof Tp <= SIZE_MAX ->
  nAlloc v * sizeof Tp <= SIZE_MAX ->
  exists v' w',
    vec.resize fuel Tp v count w = Ret v' w'
    /\ vec_inv Tp a R others v'
         (take (Z.to_nat count) xs
          ++ replicate (Z.to_nat count - length xs) 0) w'
    /\ nStored v' = count
    /\ nAlloc v' = (if (count =? 0) && (0 <? nStored v) then 0
                    else Z.max (nAlloc v) count)
    /\ (count = 0 -> 0 < nStored v ->
        ptr v' = nullptr
        /\ calls_on (pmr.resource a) (trace w')
           = calls_on (pmr.resource a) (trace w)
             ++ [EvDoDeallocate (pmr.resource a) (ptr v)
                   (nAlloc v * sizeof Tp) (alignof Tp)])
    /\ (0 < count -> count <= nStored v ->
        ptr v' = ptr v /\ trace w' = trace w).
Proof.
  intros Hinv Hcount Hmax Hmaxv.
  pose proof Hinv as [Ha Hlen Hcap Hnull Hptr HRw Hcells].
  unfold vec.resize.
  destruct (Z.ltb_spec count (nStored v)) as [Hshrink|Hge].
  - set (n := Z.to_nat count).
    assert (Hn : (n <= length xs)%nat) by lia.
    replace (n - length xs)%nat with O by lia. cbn [replicate].
    rewrite app_nil_r.
    destruct (destroy_loop_spec (ptr v) (drop n xs) count w)
      as (c' & Hrun & Hgone & Hframe).
    { intros j y Hj. rewrite lookup_drop in Hj.
      replace (count + Z.of_nat j) with (Z.of_nat (n + j)) by lia.
      apply Hcells, Hj. }
    rewrite length_drop in Hrun, Hgone, Hframe.
    replace (Z.to_nat (nStored v - count)) with (length xs - n)%nat by lia.
    unfold bind at 1. rewrite Hrun.
    assert (Hkept : stores Tp c' (ptr v) (take n xs)).
    { intros j y Hj. apply lookup_take_Some in Hj as [Hj Hjn].
      rewrite Hframe; [apply Hcells, Hj|].
      intros k _. apply at_apart. lia. }
    assert (HR1 : R (region Tp v ++ others) (set_cells c' w)).
    { apply (serves_cells _ _ _ HR). exact HRw. }
    destruct (Z.eqb_spec count 0) as [Hz|Hnz].
    + destruct (Z.ltb_spec 0 (nStored v)) as [_|]; [|lia]. cbn [andb].
      unfold bind at 1. unfold bind at 1.
      unfold pmr.deallocate_object, pmr.deallocate_bytes, size_mul.
      rewrite Z.mod_small by (unfold SIZE_MAX in Hmaxv; nia). rewrite Ha.
      unfold region in HR1.
      destruct (Z.eqb_spec (nAlloc v) 0) as [|_]; [lia|].
      destruct (serves_deallocate _ _ _ HR [] others (set_cells c' w) (ptr v)
                  (nAlloc v * sizeof Tp) (alignof Tp) HR1)
        as (w2 & Hrun2 & Hc2 & HR2 & Ht2).
      { pose proof (Hptr ltac:(lia)). unfold nullptr. lia. }
      rewrite Hrun2. unfold ret.
      eexists _, _. split; [reflexivity|]. split; [|split; [|split; [|split]]].
      * subst n. rewrite Hz. change (Z.to_nat 0) with O. rewrite take_0.
        split; cbn; try reflexivity; try lia; try assumption.
        intros j y Hj. rewrite lookup_nil in Hj. discriminate.
      * reflexivity.
      * reflexivity.
      * intros _ _. split; [reflexivity|]. rewrite Ht2. destruct w. reflexivity.
      * intros; lia.
    + cbn [andb]. unfold bind, ret.
      eexists _, _. split; [reflexivity|]. split; [|split; [|split; [|split]]].
      * split; cbn; try assumption; try lia.
        rewrite length_take. lia.
      * reflexivity.
      * cbn. lia.
      * intros; lia.
      * intros _ _. split; [reflexivity|]. destruct w. reflexivity.
  - assert (Hn : (length xs <= Z.to_nat count)%nat) by lia.
    rewrite take_ge by exact Hn.
    replace ((count =? 0) && (0 <? nStored v)) with false
      by (destruct (Z.eqb_spec count 0), (Z.ltb_spec 0 (nStored v));
          cbn; try reflexivity; lia).
    destruct (Z.ltb_spec (nStored v) count) as [Hgrow|Hsame].
    + destruct (reserve_max others v xs count w Hinv Hmax)
        as (v1 & w1 & Hrun & Hinv1 & Hn1 & _).
      destruct Hinv1 as [Ha1 Hlen1 Hcap1 Hnull1 Hptr1 HR1 Hcells1].
      unfold bind at 1. rewrite Hrun.
      assert (Hs1 : nStored v1 = nStored v) by lia.
      destruct (fill_loop_spec (ptr v1) 0 (Z.to_nat (count - nStored v1))
                  (nStored v1) w1) as (c' & Hfill & Hnew & Hframe);
        [apply Hptr1; lia | lia |].
      unfold bind. rewrite Hfill. unfold ret.
      eexists _, _. split; [reflexivity|]. split; [|split; [|split; [|split]]].
      * split; cbn; try assumption; try lia.
        -- rewrite length_app, length_replicate. lia.
        -- apply (serves_cells _ _ _ HR). exact HR1.
        -- intros j y Hj.
           apply lookup_app_Some in Hj as [Hin | [Hjge Hrep]].
           ++ rewrite Hframe; [apply Hcells1, Hin|].
              intros k _. apply at_apart. apply lookup_lt_Some in Hin. lia.
           ++ apply lookup_replicate in Hrep as [-> Hk].
              replace (Z.of_nat j)
                with (nStored v1 + Z.of_nat (j - length xs)) by lia.
              apply Hnew. lia.
      * reflexivity.
      * exact Hn1.
      * intros; lia.
      * intros; lia.
    + assert (Hcs : count = nStored v) by lia.
      replace (Z.to_nat count - length xs)%nat with O by lia.
      cbn [replicate]. rewrite app_nil_r. unfold ret.
      eexists _, _. split; [reflexivity|]. split; [|split; [|split; [|split]]].
      * split; cbn; try assumption; lia.
      * reflexivity.
      * cbn. lia.
      * intros; lia.
      * intros _ _. split; reflexivity.
Qed.

Lemma construct_again_spec p value : forall (n : nat) w,
  p <> nullptr ->
  vec.construct_again p value n w
  = Ret tt match n with
           | O => w
           | S _ => set_cells (<[p := value]> (cells w)) w
           end.
Proof.
  induction n as [|n IH]; intros w Hp; [reflexivity|].
  cbn [vec.construct_again]. unfold bind, pmr.construct.
  destruct (Z.eqb_spec p nullptr) as [|_]; [contradiction|].
  rewrite IH by exact Hp. destruct n; [reflexivity|].
  unfold set_cells. cbn. rewrite insert_insert_eq. reflexivity.
Qed.

(** X17.  [resize(count, value)] beyond the size constructs at the slot of
    index [size()] every time round: after it the size is [count], the
    elements up to the old size are the old ones, the slot of index
    [size()] holds [value], and every slot after it holds what the storage
    held when [reserve(count)] returned. *)
Theorem resize_value_one_slot others v xs count value w :
  vec_inv Tp a R others v xs w ->
  nStored v < count -> count * sizeof Tp <= SIZE_MAX ->
  exists v1 w1 v' w',
    vec.reserve fuel Tp v count w = Ret v1 w1
    /\ vec.resize_value fuel Tp v count value w = Ret v' w'
    /\ nStored v' = count /\ ptr v' = ptr v1 /\ nAlloc v' = nAlloc v1
    /\ cells w'
       = <[vec.at_ Tp (ptr v1) (Z.of_nat (length xs)) := value]> (cells w1)
    /\ trace w' = trace w1
    /\ (forall (i : nat) x, (xs ++ [value]) !! i = Some x ->
          vec.at_index Tp v' (Z.of_nat i) w' = Value x)
    /\ (forall j, Z.of_nat (length xs) < j ->
          vec.subscript Tp v' j w' = vec.subscript Tp v1 j w1).
Proof.
  intros Hinv Hgrow Hmax.
  destruct (reserve_max others v xs count w Hinv Hmax)
    as (v1 & w1 & Hrun & [Ha1 Hlen1 Hcap1 Hnull1 Hptr1 HR1 Hcells1] & Hn1 & _).
  pose proof Hinv as [Ha Hlen Hcap Hnull Hptr HRw Hcells].
  assert (Hs1 : nStored v1 = nStored v) by lia.
  assert (Hp1 : 0 < ptr v1) by (apply Hptr1; lia).
  unfold vec.resize_value.
  destruct (Z.ltb_spec count (nStored v)) as [|_]; [lia|].
  destruct (Z.ltb_spec (nStored v) count) as [_|]; [|lia].
  unfold bind at 1. rewrite Hrun. unfold bind.
  rewrite construct_again_spec by (apply at_pos; lia).
  destruct (Z.to_nat (count - nStored v1)) as [|k] eqn:Hk; [lia|].
  unfold ret. rewrite Hlen1.
  eexists v1, w1, _, _. split; [reflexivity|]. split; [reflexivity|].
  split; [reflexivity|]. split; [reflexivity|]. split; [reflexivity|].
  split; [reflexivity|]. split; [destruct w1; reflexivity|]. split.
  - intros i x Hi. apply lookup_lt_Some in Hi as Hlt.
    rewrite length_app in Hlt. cbn in Hlt.
    unfold vec.at_index, vec.subscript. cbn.
    destruct (Z.leb_spec count (Z.of_nat i)) as [|_]; [lia|].
    apply lookup_app_Some in Hi as [Hin | [Hge Hlast]].
    + rewrite lookup_insert_ne.
      * rewrite (Hcells1 _ _ Hin). reflexivity.
      * apply at_apart. apply lookup_lt_Some in Hin. lia.
    + replace i with (length xs) by lia.
      replace (i - length xs)%nat with O in Hlast by lia.
      injection Hlast as <-. rewrite lookup_insert_eq. reflexivity.
  - intros j Hj. unfold vec.subscript. cbn.
    rewrite lookup_insert_ne by (apply at_apart; lia). reflexivity.
Qed.

(** Appending [n] times to a vector that has room for them makes no call to
    the resource and keeps the storage. *)
Lemma push_back_n_room others value : forall (n : nat) v ys w,
  vec_inv Tp a R others v ys w ->
  nStored v + Z.of_nat n <= nAlloc v -> nAlloc v <= SIZE_MAX ->
  exists v' w',
    vec.push_back_n fuel Tp v value n w = Ret v' w'
    /\ vec_inv Tp a R others v' (ys ++ replicate n value) w'
    /\ nAlloc v' = nAlloc v /\ ptr v' = ptr v
    /\ trace w' = trace w.
Proof.
  induction n as [|n IH]; intros v ys w Hinv Hroom Hmax.
  - exists v, w. cbn [replicate]. rewrite app_nil_r.
    split; [reflexivity|]. split; [exact Hinv|]. repeat split.
  - destruct (push_back_room others v ys value w Hinv ltac:(lia) ltac:(lia))
      as (v1 & w1 & Hpush & Hinv1 & Hn1 & Hp1 & Hs1 & Ht1).
    destruct (IH v1 (ys ++ [value]) w1 Hinv1 ltac:(lia) ltac:(lia))
      as (v' & w' & Hrun & Hinv' & Hn' & Hp' & Ht').
    exists v', w'. cbn [vec.push_back_n]. unfold bind. rewrite Hpush.
    split; [exact Hrun|]. split; [|repeat split; congruence].
    rewrite <- app_assoc in Hinv'. exact Hinv'.
Qed.

(** X18.  [assign(count, value)] leaves [count] copies of [value]; the
    capacity is the larger of the old capacity and [count], and the
    resource is called only when [count] exceeds the old capacity: once for
    the new storage and, where there was storage, once to give it back. *)
Theorem assign_spec others v xs count value w :
  vec_inv Tp a R others v xs w ->
  0 <= count -> count * sizeof Tp <= SIZE_MAX ->
  nAlloc v * sizeof Tp <= SIZE_MAX ->
  exists v' w',
    vec.assign fuel Tp v count value w = Ret v' w'
    /\ vec_inv Tp a R others v' (replicate (Z.to_nat count) value) w'
    /\ vec.elements Tp v' w'
       = List.map Some (replicate (Z.to_nat count) value)
    /\ nAlloc v' = Z.max (nAlloc v) count
    /\ calls_on (pmr.resource a) (trace w')
       = calls_on (pmr.resource a) (trace w)
         ++ (if count <=? nAlloc v then []
             else EvDoAllocate (pmr.resource a) (count * sizeof Tp)
                    (alignof Tp)
                  :: (if nAlloc v =? 0 then []
                      else [EvDoDeallocate (pmr.resource a) (ptr v)
                              (nAlloc v * sizeof Tp) (alignof Tp)])).
Proof.
  intros Hinv Hcount Hmax Hmaxv.
  destruct (clear_spec others v xs w Hinv)
    as (v0 & w0 & Hclear & Hinv0 & Hs0 & Hn0 & Hp0 & Ht0 & _).
  destruct (reserve_max others v0 [] count w0 Hinv0 Hmax)
    as (v1 & w1 & Hres & Hinv1 & Hn1 & Ht1).
  destruct (push_back_n_room others value (Z.to_nat count) v1 [] w1 Hinv1)
    as (v' & w' & Hrun & Hinv' & Hn' & Hp' & Ht').
  { destruct Hinv1 as [_ Hlen1 _ _ _ _ _]. cbn in Hlen1. lia. }
  { pose proof Tp_size. rewrite Hn1, Hn0. unfold SIZE_MAX in *. nia. }
  exists v', w'. unfold vec.assign, bind. rewrite Hclear, Hres.
  split; [exact Hrun|]. split; [exact Hinv'|].
  split; [exact (vec_inv_elements _ _ _ _ _ _ _ Hinv')|].
  split; [lia|]. rewrite Ht', Ht1, Ht0, Hn0, Hp0. reflexivity.
Qed.

(** [reserve(n)] on a vector that never held storage: one allocation and
    nothing else. *)
Lemma reserve_empty live n w :
  R live w -> 0 < n -> n * sizeof Tp <= SIZE_MAX ->
  exists p w1,
    vec.reserve fuel Tp (vec.empty a) n w
    = Ret {| alloc := a; ptr := p; nAlloc := n; nStored := 0 |} w1
    /\ 0 < p /\ cells w1 = cells w
    /\ R ((p, n * sizeof Tp) :: live) w1
    /\ Forall (fun r => p + n * sizeof Tp <= fst r \/ fst r + snd r <= p) live
    /\ calls_on (pmr.resource a) (trace w1)
       = calls_on (pmr.resource a) (trace w)
         ++ [EvDoAllocate (pmr.resource a) (n * sizeof Tp) (alignof Tp)].
Proof.
  intros HRw Hn Hmax. unfold vec.reserve. cbn [vec.empty nAlloc alloc ptr nStored].
  destruct (Z.leb_spec n 0) as [|_]; [lia|].
  unfold bind at 1. unfold pmr.allocate_object.
  rewrite size_overflow_test by lia.
  destruct (Z.ltb_spec SIZE_MAX (n * sizeof Tp)) as [|_]; [lia|].
  unfold pmr.allocate_bytes, size_mul.
  rewrite Z.mod_small by (unfold SIZE_MAX in Hmax; nia).
  destruct (serves_allocate _ _ _ HR live w (n * sizeof Tp) (alignof Tp)
              HRw ltac:(nia) Tp_align)
    as (p & w1 & Hrun & Hp & Hc1 & HR1 & Hfresh & Ht1).
  rewrite Hrun. exists p, w1. split; [|repeat split; assumption].
  cbn [Z.to_nat vec.move_loop]. unfold bind, ret.
  unfold pmr.deallocate_object, pmr.deallocate_bytes, deallocate,
    memory_resource.deallocate.
  cbn [Z.eqb nullptr]. reflexivity.
Qed.

(** X19.  The copy constructor that takes an allocator copies the elements
    in order into storage of its own for exactly [size()] elements and
    leaves the source as it was: unlike the plain copy constructor, its
    capacity is the size of the source. *)
Theorem copy_construct_with_spec others other xs w :
  vec_inv Tp a R others other xs w ->
  nStored other * sizeof Tp <= SIZE_MAX ->
  exists v w',
    vec.copy_construct_with fuel Tp other a w = Ret v w'
    /\ vec_inv Tp a R (region Tp other ++ others) v xs w'
    /\ vec.elements Tp v w' = List.map Some xs
    /\ vec.elements Tp other w' = List.map Some xs
    /\ nAlloc v = nStored other
    /\ calls_on (pmr.resource a) (trace w')
       = calls_on (pmr.resource a) (trace w)
         ++ (if nStored other =? 0 then []
             else [EvDoAllocate (pmr.resource a)
                     (nStored other * sizeof Tp) (alignof Tp)]).
Proof.
  intros Hinv Hmax.
  pose proof Hinv as [Ha Hlen Hcap Hnull Hptr HRw Hcells].
  unfold vec.copy_construct_with, vec.size.
  destruct (Z.eqb_spec (nStored other) 0) as [H0|H0].
  - assert (xs = []) by (destruct xs; [reflexivity | cbn in Hlen; lia]).
    subst xs. rewrite H0. unfold bind, vec.reserve. cbn. unfold ret.
    rewrite app_nil_r.
    eexists _, w. split; [reflexivity|]. split; [|repeat split].
    + apply (vec_inv_empty Tp a R _ w HRw).
    + unfold vec.elements. rewrite H0. reflexivity.
  - destruct (reserve_empty (region Tp other ++ others) (nStored other) w HRw)
      as (p & w1 & Hrun & Hp & Hc1 & HR1 & Hfresh & Ht1); [lia | exact Hmax |].
    unfold bind at 1. rewrite Hrun. unfold bind at 1.
    cbn [ptr]. replace (Z.to_nat (nStored other)) with (length xs) by lia.
    assert (Hapart : forall j j' : nat,
              (j < length xs)%nat -> (j' < length xs)%nat ->
              vec.at_ Tp p (0 + Z.of_nat j)
              <> vec.at_ Tp (ptr other) (0 + Z.of_nat j')).
    { intros j j' Hj Hj'. unfold region in Hfresh.
      destruct (Z.eqb_spec (nAlloc other) 0) as [Hz|Hz]; [lia|].
      apply Forall_app in Hfresh as [Hfresh _].
      apply Forall_cons in Hfresh as [Hfresh _]. cbn in Hfresh.
      apply (region_apart Tp Tp_size p (nStored other) (ptr other)
               (nAlloc other)); [exact Hfresh | lia | lia]. }
    destruct (copy_loop_spec (ptr other) p xs 0 w1)
      as (c' & Hcopy & Hnew & Hframe).
    + lia.
    + exact Hp.
    + intros j y Hj. rewrite Hc1, Z.add_0_l. apply Hcells, Hj.
    + exact Hapart.
    + rewrite Hcopy. unfold ret.
      assert (Hinv' : vec_inv Tp a R (region Tp other ++ others)
                (set_nStored (nStored other)
                   {| alloc := a; ptr := p; nAlloc := nStored other;
                      nStored := 0 |}) xs (set_cells c' w1)).
      { split; cbn; try reflexivity; try lia.
        - unfold region. cbn.
          destruct (Z.eqb_spec (nStored other) 0) as [|_]; [contradiction|].
          apply (serves_cells _ _ _ HR). exact HR1.
        - intros j y Hj. specialize (Hnew j y Hj).
          rewrite Z.add_0_l in Hnew. exact Hnew. }
      eexists _, _. split; [reflexivity|]. split; [exact Hinv'|].
      split; [exact (vec_inv_elements _ _ _ _ _ _ _ Hinv')|].
      split; [|split; [reflexivity|]].
      * apply stores_elements; cbn; [exact Hlen|].
        intros j y Hj. rewrite Hframe, Hc1; [apply Hcells, Hj|].
        intros k Hk E. apply lookup_lt_Some in Hj.
        apply (Hapart k j Hk Hj). rewrite !Z.add_0_l. symmetry. exact E.
      * destruct (Z.eqb_spec (nStored other) 0) as [|_]; [contradiction|].
        destruct w1. exact Ht1.
Qed.

End vector_members.

(** ** The vector members over the system resource *)

Lemma three_run_eq : three_run = Ret v_three w_three.
Proof. reflexivity. Qed.

Lemma three_inv : vec_inv int_t sys_alloc R_sys [] v_three [7; 8; 9] w_three.
Proof.
  split; try reflexivity; try (cbn; lia).
  - repeat split; [vm_compute; discriminate|].
    repeat constructor. vm_compute. discriminate.
  - intros [|[|[|i]]] x Hi; cbn in Hi; try discriminate;
      injection Hi as <-; reflexivity.
Qed.

Lemma at_bounds_witness :
  vec.at_index int_t v_three 1 w_three
  = match [7; 8; 9] !! Z.to_nat 1 with
    | Some x => Value x
    | None => OutOfRange
    end
  /\ (forall x, head [7; 8; 9] = Some x ->
        vec.front int_t v_three w_three = Value x)
  /\ (forall x, last [7; 8; 9] = Some x ->
        vec.back int_t v_three w_three = Value x).
Proof.
  apply (at_bounds int_t v_three [7; 8; 9] 1 w_three);
    [reflexivity | vm_compute; discriminate
    | exact (inv_cells _ _ _ _ _ _ _ three_inv) | lia].
Defined.

Lemma clear_keeps_storage_witness :
  exists v' w' v2 w2,
    vec.clear int_t v_three w_three = Ret v' w'
    /\ nStored v' = 0 /\ nAlloc v' = nAlloc v_three /\ ptr v' = ptr v_three
    /\ trace w' = trace w_three
    /\ (forall j : nat, (j < length [7; 8; 9])%nat ->
          cells w' !! vec.at_ int_t (ptr v_three) (Z.of_nat j) = None)
    /\ vec.push_back 1 int_t v' 5 w' = Ret v2 w2
    /\ vec.elements int_t v2 w2 = [Some 5]
    /\ ptr v2 = ptr v_three /\ nAlloc v2 = nAlloc v_three
    /\ trace w2 = trace w_three.
Proof.
  apply (clear_keeps_storage 1 int_t sys_alloc R_sys ltac:(cbn; lia)
           sys_serves [] v_three [7; 8; 9] 5 w_three three_inv);
    [reflexivity | vm_compute; discriminate].
Defined.

Lemma push_back_pop_back_witness :
  exists v1 w1 v2 w2,
    vec.push_back 1 int_t v_three 10 w_three = Ret v1 w1
    /\ vec.pop_back int_t v1 w1 = Ret v2 w2
    /\ vec_inv int_t sys_alloc R_sys [] v2 [7; 8; 9] w2
    /\ vec.elements int_t v2 w2 = List.map Some [7; 8; 9]
    /\ nStored v2 = nStored v_three
    /\ nAlloc v2 = nAlloc v1 /\ ptr v2 = ptr v1
    /\ trace w2 = trace w1.
Proof.
  apply (push_back_pop_back 1 int_t sys_alloc R_sys ltac:(cbn; lia)
           ltac:(cbn; lia) sys_serves [] v_three [7; 8; 9] 10 w_three
           three_inv);
    [intros _; vm_compute; discriminate | reflexivity].
Defined.

Lemma reserve_cases_witness :
  (8 <= nAlloc v_three -> vec.reserve 1 int_t v_three 8 w_three
                          = Ret v_three w_three)
  /\ (nAlloc v_three < 8 -> vec.max_size int_t < 8 ->
      vec.reserve 1 int_t v_three 8 w_three
      = Throw bad_array_new_length w_three)
  /\ (nAlloc v_three < 8 -> 8 <= vec.max_size int_t ->
      exists v' w',
        vec.reserve 1 int_t v_three 8 w_three = Ret v' w'
        /\ vec_inv int_t sys_alloc R_sys [] v' [7; 8; 9] w'
        /\ nAlloc v' = 8 /\ nStored v' = nStored v_three
        /\ vec.elements int_t v' w' = List.map Some [7; 8; 9]).
Proof.
  apply (reserve_cases 1 int_t sys_alloc R_sys ltac:(cbn; lia) ltac:(cbn; lia)
           sys_serves [] v_three [7; 8; 9] 8 w_three three_inv).
Defined.


Lemma construct_fill_spec_witness :
  exists v w',
    vec.construct_fill 1 int_t sys_alloc 3 7 w_sys = Ret v w'
    /\ vec_inv int_t sys_alloc R_sys [] v (replicate (Z.to_nat 3) 7) w'
    /\ vec.elements int_t v w' = List.map Some (replicate (Z.to_nat 3) 7)
    /\ nAlloc v = 3
    /\ calls_on (pmr.resource sys_alloc) (trace w')
       = calls_on (pmr.resource sys_alloc) (trace w_sys)
         ++ (if 3 =? 0 then []
             else [EvDoAllocate (pmr.resource sys_alloc) (3 * sizeof int_t)
                     (alignof int_t)]).
Proof.
  apply (construct_fill_spec 1 int_t sys_alloc R_sys ltac:(cbn; lia)
           ltac:(cbn; lia) sys_serves [] 3 7 w_sys R_sys_initial);
    [lia | vm_compute; discriminate].
Defined.

Lemma copy_construct_spec_witness :
  exists v w',
    vec.copy_construct 1 int_t v_three w_three = Ret v w'
    /\ vec.elements int_t v w' = List.map Some [7; 8; 9]
    /\ vec.elements int_t v_three w' = List.map Some [7; 8; 9]
    /\ nStored v = nStored v_three /\ nAlloc v = nAlloc v_three
    /\ (nStored v_three = 0 -> ptr v = nullptr)
    /\ calls_on (pmr.resource sys_alloc) (trace w')
       = calls_on (pmr.resource sys_alloc) (trace w_three)
         ++ (if nStored v_three =? 0 then []
             else [EvDoAllocate (pmr.resource sys_alloc)
                     (nStored v_three * sizeof int_t) (alignof int_t)]).
Proof.
  apply (copy_construct_spec 1 int_t sys_alloc R_sys ltac:(cbn; lia)
           ltac:(cbn; lia) sys_serves [] v_three [7; 8; 9] w_three three_inv).
  vm_compute. discriminate.
Defined.

Lemma resize_spec_witness :
  exists v' w',
    vec.resize 1 int_t v_three 0 w_three = Ret v' w'
    /\ vec_inv int_t sys_alloc R_sys [] v'
         (take (Z.to_nat 0) [7; 8; 9]
          ++ replicate (Z.to_nat 0 - length [7; 8; 9]) 0) w'
    /\ nStored v' = 0
    /\ nAlloc v' = (if (0 =? 0) && (0 <? nStored v_three) then 0
                    else Z.max (nAlloc v_three) 0)
    /\ (0 = 0 -> 0 < nStored v_three ->
        ptr v' = nullptr
        /\ calls_on (pmr.resource sys_alloc) (trace w')
           = calls_on (pmr.resource sys_alloc) (trace w_three)
             ++ [EvDoDeallocate (pmr.resource sys_alloc) (ptr v_three)
                   (nAlloc v_three * sizeof int_t) (alignof int_t)])
    /\ (0 < 0 -> 0 <= nStored v_three ->
        ptr v' = ptr v_three /\ trace w' = trace w_three).
Proof.
  apply (resize_spec 1 int_t sys_alloc R_sys ltac:(cbn; lia) ltac:(cbn; lia)
           sys_serves [] v_three [7; 8; 9] 0 w_three three_inv);
    [lia | vm_compute; discriminate | vm_compute; discriminate].
Defined.

Lemma resize_value_one_slot_witness :
  exists v1 w1 v' w',
    vec.reserve 1 int_t v_three 6 w_three = Ret v1 w1
    /\ vec.resize_value 1 int_t v_three 6 1 w_three = Ret v' w'
    /\ nStored v' = 6 /\ ptr v' = ptr v1 /\ nAlloc v' = nAlloc v1
    /\ cells w'
       = <[vec.at_ int_t (ptr v1) (Z.of_nat (length [7; 8; 9])) := 1]>
           (cells w1)
    /\ trace w' = trace w1
    /\ (forall (i : nat) x, ([7; 8; 9] ++ [1]) !! i = Some x ->
          vec.at_index int_t v' (Z.of_nat i) w' = Value x)
    /\ (forall j, Z.of_nat (length [7; 8; 9]) < j ->
          vec.subscript int_t v' j w' = vec.subscript int_t v1 j w1).
Proof.
  apply (resize_value_one_slot 1 int_t sys_alloc R_sys ltac:(cbn; lia)
           ltac:(cbn; lia) sys_serves [] v_three [7; 8; 9] 6 1 w_three
           three_inv);
    [reflexivity | vm_compute; discriminate].
Defined.

Lemma assign_spec_witness :
  exists v' w',
    vec.assign 1 int_t v_three 6 1 w_three = Ret v' w'
    /\ vec_inv int_t sys_alloc R_sys [] v' (replicate (Z.to_nat 6) 1) w'
    /\ vec.elements int_t v' w' = List.map Some (replicate (Z.to_nat 6) 1)
    /\ nAlloc v' = Z.max (nAlloc v_three) 6
    /\ calls_on (pmr.resource sys_alloc) (trace w')
       = calls_on (pmr.resource sys_alloc) (trace w_three)
         ++ (if 6 <=? nAlloc v_three then []
             else EvDoAllocate (pmr.resource sys_alloc) (6 * sizeof int_t)
                    (alignof int_t)
                  :: (if nAlloc v_three =? 0 then []
                      else [EvDoDeallocate (pmr.resource sys_alloc)
                              (ptr v_three) (nAlloc v_three * sizeof int_t)
                              (alignof int_t)])).
Proof.
  apply (assign_spec 1 int_t sys_alloc R_sys ltac:(cbn; lia) ltac:(cbn; lia)
           sys_serves [] v_three [7; 8; 9] 6 1 w_three three_inv);
    [lia | vm_compute; discriminate | vm_compute; discriminate].
Defined.

Lemma copy_construct_with_spec_witness :
  exists v w',
    vec.copy_construct_with 1 int_t v_three sys_alloc w_three = Ret v w'
    /\ vec_inv int_t sys_alloc R_sys (region int_t v_three ++ []) v
         [7; 8; 9] w'
    /\ vec.elements int_t v w' = List.map Some [7; 8; 9]
    /\ vec.elements int_t v_three w' = List.map Some [7; 8; 9]
    /\ nAlloc v = nStored v_three
    /\ calls_on (pmr.resource sys_alloc) (trace w')
       = calls_on (pmr.resource sys_alloc) (trace w_three)
         ++ (if nStored v_three =? 0 then []
             else [EvDoAllocate (pmr.resource sys_alloc)
                     (nStored v_three * sizeof int_t) (alignof int_t)]).
Proof.
  apply (copy_construct_with_spec 1 int_t sys_alloc R_sys ltac:(cbn; lia)
           ltac:(cbn; lia) sys_serves [] v_three [7; 8; 9] w_three three_inv).
  vm_compute. discriminate.
Defined.
